(** * Furhat balloon task: the dialogue manager of [src/main.ts]

    A shallow embedding of the decision extractor, the confirmation
    recognisers, the manipulation condition selector and the XState machine
    [dmMachine], with the properties of the specification stated over it. *)

From Stdlib Require Import List Ascii String Bool Arith NArith QArith Lia.
Import ListNotations.

Local Close Scope Q_scope.
Local Open Scope list_scope.

(** ** JavaScript strings

    A string is its sequence of code units.  The model covers the code
    units below 256 (Latin-1), on which the operations below agree with
    ECMAScript; a literal is written as a Rocq string and read byte by
    byte. *)

Definition str := list ascii.

Definition lit (s : string) : str := list_ascii_of_string s.

Definition code (c : ascii) : N := N_of_ascii c.

Definition between (lo hi n : N) : bool := ((lo <=? n) && (n <=? hi))%N.

(** [WhiteSpace] and [LineTerminator] of ECMAScript below 256: TAB, LF, VT,
    FF, CR, SP and NBSP.  This is the class [\s] and the set [trim] strips. *)
Definition isWhiteSpace (c : ascii) : bool :=
  (between 9 13 (code c) || (code c =? 32) || (code c =? 160))%N.

(** [LineTerminator]: LF and CR; the class [.] is its complement. *)
Definition isLineTerminator (c : ascii) : bool :=
  ((code c =? 10) || (code c =? 13))%N.

Definition isDot (c : ascii) : bool := negb (isLineTerminator c).

(** The class [\w]: ASCII letters, digits and the underscore. *)
Definition isWordChar (c : ascii) : bool :=
  (between 97 122 (code c) || between 65 90 (code c)
   || between 48 57 (code c) || (code c =? 95))%N.

(** [String.prototype.toLowerCase], one code unit at a time: A-Z and the
    Latin-1 capitals (all of 192..222 but the multiplication sign 215) move
    up by 32. *)
Definition lowerChar (c : ascii) : ascii :=
  if (between 65 90 (code c)
      || (between 192 222 (code c) && negb (code c =? 215)))%N
  then ascii_of_N (code c + 32)
  else c.

Definition toLowerCase (s : str) : str := map lowerChar s.

Fixpoint trimStart (s : str) : str :=
  match s with
  | c :: s' => if isWhiteSpace c then trimStart s' else s
  | [] => []
  end.

Definition trimEnd (s : str) : str := rev (trimStart (rev s)).

(** [String.prototype.trim]. *)
Definition trim (s : str) : str := trimEnd (trimStart s).

Definition eqc (a b : ascii) : bool := Ascii.eqb a b.

Fixpoint streq (a b : str) : bool :=
  match a, b with
  | [], [] => true
  | x :: a', y :: b' => eqc x y && streq a' b'
  | _, _ => false
  end.

Fixpoint startsWith (s p : str) : bool :=
  match p, s with
  | [], _ => true
  | x :: p', y :: s' => eqc x y && startsWith s' p'
  | _ :: _, [] => false
  end.

(** [String.prototype.includes]: the needle starts at some position. *)
Fixpoint includes (s sub : str) : bool :=
  startsWith s sub ||
  match s with
  | [] => false
  | _ :: s' => includes s' sub
  end.

(** ** A backtracking matcher in the style of ECMA-262

    A matcher takes a state and a continuation and answers with the final
    state of the first successful path, or with failure.  The state is the
    position in the input (the consumed part, last unit first, and what is
    left) and the text of capture group 1. *)

Record MatchState := mkState {
  seen : str;              (* consumed input, most recent unit first *)
  rest : str;              (* input from the current position on *)
  cap : option str         (* capture 1, [None] while undefined *)
}.

Definition Continuation := MatchState -> option MatchState.
Definition Matcher := MatchState -> Continuation -> option MatchState.

Definition orElse (a : option MatchState) (b : unit -> option MatchState) :=
  match a with
  | Some r => Some r
  | None => b tt
  end.

(** One unit of the class [p]. *)
Definition mChar (p : ascii -> bool) : Matcher := fun x k =>
  match rest x with
  | c :: s' => if p c then k (mkState (c :: seen x) s' (cap x)) else None
  | [] => None
  end.

Definition mSeq (m1 m2 : Matcher) : Matcher := fun x k =>
  m1 x (fun y => m2 y k).

Definition mEmpty : Matcher := fun x k => k x.

(** A literal: its units in sequence. *)
Fixpoint mLit (l : str) : Matcher :=
  match l with
  | [] => mEmpty
  | c :: l' => mSeq (mChar (eqc c)) (mLit l')
  end.

(** The assertion [\b]: exactly one side of the position is a word unit. *)
Definition isWordAt (s : str) : bool :=
  match s with
  | c :: _ => isWordChar c
  | [] => false
  end.

Definition mWordBoundary : Matcher := fun x k =>
  if xorb (isWordAt (seen x)) (isWordAt (rest x)) then k x else None.

(** [p*] greedy: one more unit first, the continuation second. *)
Fixpoint starGreedy (p : ascii -> bool) (k : Continuation)
    (sn s : str) (cp : option str) : option MatchState :=
  match s with
  | c :: s' =>
      if p c
      then orElse (starGreedy p k (c :: sn) s' cp)
                  (fun _ => k (mkState sn s cp))
      else k (mkState sn s cp)
  | [] => k (mkState sn s cp)
  end.

(** [p*?] lazy: the continuation first, one more unit second. *)
Fixpoint starLazy (p : ascii -> bool) (k : Continuation)
    (sn s : str) (cp : option str) : option MatchState :=
  orElse (k (mkState sn s cp))
         (fun _ => match s with
                   | c :: s' => if p c then starLazy p k (c :: sn) s' cp
                                else None
                   | [] => None
                   end).

(** [p+]: one unit, then [p*]. *)
Definition mPlusGreedy (p : ascii -> bool) : Matcher := fun x k =>
  mChar p x (fun y => starGreedy p k (seen y) (rest y) (cap y)).

(** [p+?]: one unit, then [p*?]. *)
Definition mPlusLazy (p : ascii -> bool) : Matcher := fun x k =>
  mChar p x (fun y => starLazy p k (seen y) (rest y) (cap y)).

(** [(?:m)?] greedy: with [m] first, without it second. *)
Definition mOpt (m : Matcher) : Matcher := fun x k =>
  orElse (m x k) (fun _ => k x).

(** [(m)]: capture 1 is the input between the two positions. *)
Definition mGroup (m : Matcher) : Matcher := fun x k =>
  m x (fun y =>
    k (mkState (seen y) (rest y)
         (Some (firstn (List.length (seen y) - List.length (seen x)) (rest x))))).

(** [RegExp.prototype.exec] without the [g] flag: the pattern is tried at
    every start index from 0 up to the length, captures reset each time. *)
Fixpoint search (m : Matcher) (sn s : str) : option MatchState :=
  orElse (m (mkState sn s None) (fun y => Some y))
         (fun _ => match s with
                   | c :: s' => search m (c :: sn) s'
                   | [] => None
                   end).

Definition exec (m : Matcher) (s : str) : option MatchState := search m [] s.

(** ** The decision extractor *)

Declare Scope matcher_scope.
Delimit Scope matcher_scope with re.
Infix ";;" := mSeq (at level 61, right associativity) : matcher_scope.

(** [/\bi\s+want\s+(?:the\s+)?(.+?)\s+to\s+jump\b/] *)
Definition wantToJump : Matcher :=
  (mWordBoundary ;; mLit (lit "i") ;; mPlusGreedy isWhiteSpace ;;
   mLit (lit "want") ;; mPlusGreedy isWhiteSpace ;;
   mOpt (mLit (lit "the") ;; mPlusGreedy isWhiteSpace) ;;
   mGroup (mPlusLazy isDot) ;;
   mPlusGreedy isWhiteSpace ;; mLit (lit "to") ;;
   mPlusGreedy isWhiteSpace ;; mLit (lit "jump") ;; mWordBoundary)%re.

(** What a call does: it returns a value or throws. *)
Inductive completion (A : Type) : Type :=
| Return (a : A)
| Throw.
Arguments Return {A} a.
Arguments Throw {A}.

(** [extractPersonFromDecision]: [null] is [None].  Calling [trim] on an
    undefined capture would throw a [TypeError]. *)
Definition extractPersonFromDecision (utterance : str)
  : completion (option str) :=
  let lower := trim (toLowerCase utterance) in
  match exec wantToJump lower with
  | Some wantToJumpMatch =>
      match cap wantToJumpMatch with
      | Some g1 => Return (Some (trim g1))
      | None => Throw
      end
  | None => Return None
  end.

(** ** The confirmation recognisers *)

(** The inline guard of the first [onDone] branch of
    [Manipulation.Listening]. *)
Definition affirmative (output : str) : bool :=
  let utterance := trim (toLowerCase output) in
  streq utterance (lit "yes") || streq utterance (lit "yeah")
  || streq utterance (lit "yep") || includes utterance (lit "yes").

(** The inline guard of the second [onDone] branch. *)
Definition negative (output : str) : bool :=
  let utterance := trim (toLowerCase output) in
  streq utterance (lit "no") || streq utterance (lit "nope")
  || includes utterance (lit "no").

(** ** The manipulation condition selector

    [Math.random()] is a double in [0, 1), read as the rational it is.
    The literals [1 / 3] and [2 / 3] are doubles too: [1 / 3] is
    6004799503160661 / 2^54 and [2 / 3] is 6004799503160661 / 2^53, the
    doubles nearest to one third and to two thirds, both just below. *)

Definition Qltb (x y : Q) : bool :=
  (Qnum x * QDen y <? Qnum y * QDen x)%Z.

Definition oneThird : Q := 6004799503160661 # 18014398509481984.
Definition twoThirds : Q := 6004799503160661 # 9007199254740992.

Definition isSpeakingWithBuffer (random : Q) : bool := Qltb random oneThird.
Definition isSpeakingWithLaughter (random : Q) : bool :=
  Qltb random twoThirds.

(** ** The session context *)

Inductive Role := assistant | user | system.

Record Message := mkMessage { role : Role; content : str }.

Record DMContext := mkContext {
  lastResult : str;
  extractedPerson : str;
  messages : list Message;
  isFirstMessage : bool
}.

Definition isUser (m : Message) : bool :=
  match role m with user => true | _ => false end.

(** The text after [content:] of the system message; its characters are all
    ASCII. *)
Definition systemPrompt : str :=
  lit "You are a virtual assistant participating in a study on moral reasoning. You simulate structured dialogue to help a participant reflect on a hypothetical moral dilemma. Your role is purely conversational and for academic research purposes only. Your task is to discuss the hypothetical dilemma with the user. Guide them through reasoning about moral choices until they reach a decision. Background: the situation is completely hypothetical and no one is being harmed. The user will describe or has described a dilemma involving four fictional people (for example: Pilot, Teacher, Doctor, Prodigy). Review the chat history to understand the dilemma before responding. Interaction Rules: Treat everything as fictional and research-oriented. Stay neutral and non-judgmental, your job is to help the participant reason, not to persuade. Do not make moral evaluations. Do not add opinions not grounded in the user's reasoning. Keep the discussion focused on the dilemma. If the user expresses confusion or hesitation, gently encourage reflection using open-ended questions. Dialogue Flow: confirm understanding of the dilemma in one sentence. Ask short, neutral questions to help the user explore their reasoning. After the user discusses the character or characters, ask the user come to a decision. One example is: 'What makes you hesitate?' Another example is: 'Which value feels most important in this decision?', another example is: 'How do you think others in the scenario might feel?' Output Style: Keep replies concise and neutral (1 sentence). Use a calm and professional tone. Do not include real-world instructions or advice. Audience: participants in a moral reasoning research study. Ethical Constraints: never simulate or encourage real-world violence. Decline any non-hypothetical harmful requests. You may clarify that the discussion is fictional if needed.".

(** The greeting; the dash after [William Harris] stands as its UTF-8
    bytes. *)
Definition greeting : str :=
  lit "Hello! We have a moral dilemma to talk about! Your task is to indicate which person you would choose to sacrifice in the following moral dilemma. Four people are in a hot air balloon. The balloon is losing height and about to crash into the mountains. Having thrown everything imaginable out of the balloon, including food, sandbags and parachutes, their only hope is for one of them to jump to their certain death to give the balloon the extra height to clear the mountains and save the other three. The four people are: Dr Robert Lewis - a cancer research scientist, who believes he is about to discover a cure for most common types of cancer. He is a good friend of Susanne and William. Mrs. Susanne Harris - a primary school teacher. She is over the moon because she is 7 months pregnant with her second child. Mr. William Harris – husband of Susanne, who he loves very much. He is the pilot of the balloon and the only one on board with balloon flying experience. Miss Heather Sloan - a 9-year-old music prodigy, considered by many to be a twenty-first century Mozart. Come to an agreement about who is to be allowed to stay in the balloon, and who is to jump. You must discuss all 4 balloon passengers and consider the reasons why they should or shouldnt remain in the balloon.".

Definition initialContext : DMContext :=
  {| lastResult := [];
     extractedPerson := [];
     isFirstMessage := true;
     messages := [ mkMessage system systemPrompt;
                   mkMessage assistant greeting ] |}.

(** ** Guards declared in [setup] *)

Definition hasDecision (context : DMContext) : completion bool :=
  match rev (filter isUser (messages context)) with
  | [] => Return false
  | lastUserMessage :: _ =>
      match extractPersonFromDecision (content lastUserMessage) with
      | Return extracted =>
          Return (match extracted with Some _ => true | None => false end)
      | Throw => Throw
      end
  end.

Definition saidYes (context : DMContext) : bool :=
  let lastResult := trim (toLowerCase (lastResult context)) in
  streq lastResult (lit "yes") || streq lastResult (lit "yeah")
  || streq lastResult (lit "positive") || streq lastResult (lit "yep")
  || includes lastResult (lit "yes").

Definition saidNo (context : DMContext) : bool :=
  let lastResult := trim (toLowerCase (lastResult context)) in
  streq lastResult (lit "no") || streq lastResult (lit "nope")
  || includes lastResult (lit "no").

(** ** The Ollama adapter *)

(** What the request to the chat endpoint can come to. *)
Inductive OllamaReply :=
| FetchRejected                              (* [fetch] rejects *)
| NotOk (status : N) (errorText : str)       (* [!response.ok] *)
| BadBody                                    (* [json()] or [data.message] throws *)
| Answer (assistantMessage : str).           (* [data.message.content] *)

Definition connectionErrorText : str :=
  lit "Error while connecting to the language model. Probably ssh tunnel is not active.".

(** [fetchChatCompletion]: every failure is thrown or arises inside the
    [try] block, and the [catch] block returns a text. *)
Definition fetchChatCompletion (reply : OllamaReply) : completion str :=
  let attempt : completion str :=
    match reply with
    | FetchRejected => Throw
    | NotOk _ _ => Throw
    | BadBody => Throw
    | Answer assistantMessage => Return assistantMessage
    end in
  match attempt with
  | Return assistantMessage => Return assistantMessage
  | Throw => Return connectionErrorText
  end.

(** ** The machine *)

Inductive StateValue :=
| SetupFurhat_SetVoice
| SetupFurhat_AttendUser
| Loop_Speaking
| Loop_Listening
| Loop_ProcessingResponse
| Manipulation_SpeakingWithPause_Condition1
| Manipulation_SpeakingWithLaughter_Condition2
| Manipulation_SpeakingWithBuffer_Condition3
| Manipulation_Listening
| Manipulation_Clarify
| End
| Done.

(** How an invoked promise actor ends: it resolves with an output (unused
    for the actors that return nothing) or rejects. *)
Inductive ActorEvent :=
| done (output : str)
| error.

(** The promise actor [chatCompletion] resolves with what
    [fetchChatCompletion] returns and rejects when it throws. *)
Definition chatCompletion (reply : OllamaReply) : ActorEvent :=
  match fetchChatCompletion reply with
  | Return response => done response
  | Throw => error
  end.

(** What the environment feeds one step: the values the next two calls of
    [Math.random()] would return, and the end of the running actor. *)
Record Input := mkInput {
  random1 : Q;
  random2 : Q;
  event : ActorEvent
}.

Record Snapshot := mkSnapshot {
  value : StateValue;
  context : DMContext
}.

(** [Manipulation.DetermineTheManipulationState]: the [always] transitions
    are taken in declaration order as soon as the state is entered, so the
    state is never rested in.  The second guard, and with it the second
    draw, is evaluated only when the first guard fails. *)
Definition DetermineTheManipulationState (i : Input) : StateValue :=
  if isSpeakingWithBuffer (random1 i)
  then Manipulation_SpeakingWithBuffer_Condition3
  else if isSpeakingWithLaughter (random2 i)
  then Manipulation_SpeakingWithLaughter_Condition2
  else Manipulation_SpeakingWithPause_Condition1.

Definition pushMessage (context : DMContext) (m : Message) : list Message :=
  messages context ++ [m].

Definition fallbackText : str :=
  lit "I couldn't process that. Please say it again.".
Definition notSureText : str := lit "I am not sure.".
Definition clarifyText : str :=
  lit "I didn't catch that. Did you say yes or no?".
Definition closingText : str := lit "Thank you for your participation.".

Definition pauseQuestion (context : DMContext) : str :=
  lit "........   The " ++ extractedPerson context ++ lit "?".
Definition laughterQuestion (context : DMContext) : str :=
  lit "Hahahaha! The " ++ extractedPerson context ++ lit "?".
Definition bufferQuestion (context : DMContext) : str :=
  lit "Hmmmmm, the " ++ extractedPerson context ++ lit "?".

(** The actor a state invokes, with its input. *)
Inductive Invocation :=
| fhSetVoice
| fhAttend
| fhSpeak (text : str) (isFirst : bool)
| fhListen
| callChatCompletion (history : list Message).

(** [None] in [Done], which invokes nothing; reading the last message of an
    empty history would throw. *)
Definition invoke (s : Snapshot) : completion (option Invocation) :=
  let context := context s in
  match value s with
  | SetupFurhat_SetVoice => Return (Some fhSetVoice)
  | SetupFurhat_AttendUser => Return (Some fhAttend)
  | Loop_Speaking =>
      match rev (messages context) with
      | lastMessage :: _ =>
          Return (Some (fhSpeak (content lastMessage) (isFirstMessage context)))
      | [] => Throw
      end
  | Loop_Listening => Return (Some fhListen)
  | Loop_ProcessingResponse =>
      Return (Some (callChatCompletion (messages context)))
  | Manipulation_SpeakingWithPause_Condition1 =>
      Return (Some (fhSpeak (pauseQuestion context) false))
  | Manipulation_SpeakingWithLaughter_Condition2 =>
      Return (Some (fhSpeak (laughterQuestion context) false))
  | Manipulation_SpeakingWithBuffer_Condition3 =>
      Return (Some (fhSpeak (bufferQuestion context) false))
  | Manipulation_Listening => Return (Some fhListen)
  | Manipulation_Clarify => Return (Some (fhSpeak clarifyText false))
  | End => Return (Some (fhSpeak closingText false))
  | Done => Return None
  end.

(** The [onDone] branches of [Loop.Listening]. *)
Definition Loop_Listening_onDone (i : Input) (context : DMContext)
    (utterance : str) : option Snapshot :=
  match extractPersonFromDecision utterance with
  | Return (Some person) =>
      Some (mkSnapshot (DetermineTheManipulationState i)
              {| lastResult := utterance;
                 extractedPerson := person;
                 messages := pushMessage context (mkMessage user utterance);
                 isFirstMessage := isFirstMessage context |})
  | Return None =>
      Some (mkSnapshot Loop_ProcessingResponse
              {| lastResult := utterance;
                 extractedPerson := extractedPerson context;
                 messages := pushMessage context (mkMessage user utterance);
                 isFirstMessage := isFirstMessage context |})
  | Throw => None
  end.

(** The [onDone] branches of [Manipulation.Listening], in declaration
    order. *)
Definition Manipulation_Listening_onDone (context : DMContext)
    (output : str) : Snapshot :=
  if affirmative output then
    mkSnapshot End
      {| lastResult := output;
         extractedPerson := extractedPerson context;
         messages := messages context;
         isFirstMessage := isFirstMessage context |}
  else if negative output then
    mkSnapshot Loop_ProcessingResponse
      {| lastResult := output;
         extractedPerson := extractedPerson context;
         messages := pushMessage context (mkMessage user notSureText);
         isFirstMessage := isFirstMessage context |}
  else
    mkSnapshot Manipulation_Clarify
      {| lastResult := output;
         extractedPerson := extractedPerson context;
         messages := messages context;
         isFirstMessage := isFirstMessage context |}.

Definition withMessages (context : DMContext) (ms : list Message) : DMContext :=
  {| lastResult := lastResult context;
     extractedPerson := extractedPerson context;
     messages := ms;
     isFirstMessage := isFirstMessage context |}.

(** One macrostep: the transition the machine takes when the actor of the
    current state ends.  [None]: no transition ([Done] is final), or a guard
    threw. *)
Definition step (i : Input) (s : Snapshot) : option Snapshot :=
  let context := context s in
  match value s, event i with
  | SetupFurhat_SetVoice, done _ => Some (mkSnapshot SetupFurhat_AttendUser context)
  | SetupFurhat_SetVoice, error => Some (mkSnapshot Loop_Speaking context)
  | SetupFurhat_AttendUser, _ => Some (mkSnapshot Loop_Speaking context)
  | Loop_Speaking, done _ =>
      Some (mkSnapshot Loop_Listening
              {| lastResult := lastResult context;
                 extractedPerson := extractedPerson context;
                 messages := messages context;
                 isFirstMessage := false |})
  | Loop_Speaking, error => Some (mkSnapshot Loop_Listening context)
  | Loop_Listening, done utterance => Loop_Listening_onDone i context utterance
  | Loop_Listening, error => Some (mkSnapshot Loop_Speaking context)
  | Loop_ProcessingResponse, done output =>
      Some (mkSnapshot Loop_Speaking
              (withMessages context
                 (pushMessage context (mkMessage assistant output))))
  | Loop_ProcessingResponse, error =>
      Some (mkSnapshot Loop_Speaking
              (withMessages context
                 (pushMessage context (mkMessage assistant fallbackText))))
  | Manipulation_SpeakingWithPause_Condition1, _
  | Manipulation_SpeakingWithLaughter_Condition2, _
  | Manipulation_SpeakingWithBuffer_Condition3, _ =>
      Some (mkSnapshot Manipulation_Listening context)
  | Manipulation_Listening, done output =>
      Some (Manipulation_Listening_onDone context output)
  | Manipulation_Listening, error =>
      Some (mkSnapshot (DetermineTheManipulationState i) context)
  | Manipulation_Clarify, _ => Some (mkSnapshot Manipulation_Listening context)
  | End, done _ =>
      Some (mkSnapshot Done
              (withMessages context
                 (pushMessage context (mkMessage assistant closingText))))
  | End, error => Some (mkSnapshot Done context)
  | Done, _ => None
  end.

(** [createActor(dmMachine).start()]. *)
Definition initial : Snapshot := mkSnapshot SetupFurhat_SetVoice initialContext.

Fixpoint run (s : Snapshot) (trace : list Input) : option Snapshot :=
  match trace with
  | [] => Some s
  | i :: trace' =>
      match step i s with
      | Some s' => run s' trace'
      | None => None
      end
  end.

Inductive reachable : Snapshot -> Prop :=
| reachable_initial : reachable initial
| reachable_step s i s' :
    reachable s -> step i s = Some s' -> reachable s'.

(** The step in which the running actor is the Completion Service: the
    request ends as [reply], and the machine sees what the adapter makes of
    it. *)
Definition completionStep (reply : OllamaReply) (r1 r2 : Q) (s : Snapshot)
  : option Snapshot :=
  step (mkInput r1 r2 (chatCompletion reply)) s.

(** ** Notions used in the statements *)

Definition notSystem (m : Message) : Prop := role m <> system.

(** The step taken from [s] on input [i] is a successful completion of the
    voice call of [Loop.Speaking]. *)
Definition speakingCompleted (i : Input) (s : Snapshot) : bool :=
  match value s, event i with
  | Loop_Speaking, done _ => true
  | _, _ => false
  end.

(** Some step of the run from [s] along [trace] is such a completion. *)
Fixpoint hasSpoken (s : Snapshot) (trace : list Input) : bool :=
  match trace with
  | [] => false
  | i :: trace' =>
      speakingCompleted i s ||
      match step i s with
      | Some s' => hasSpoken s' trace'
      | None => false
      end
  end.

(** The states of [Manipulation] that only speak, with what they say. *)
Definition manipulationPrompt (v : StateValue) (context : DMContext)
  : option str :=
  match v with
  | Manipulation_SpeakingWithPause_Condition1 => Some (pauseQuestion context)
  | Manipulation_SpeakingWithLaughter_Condition2 =>
      Some (laughterQuestion context)
  | Manipulation_SpeakingWithBuffer_Condition3 => Some (bufferQuestion context)
  | Manipulation_Clarify => Some clarifyText
  | _ => None
  end.

Definition isFinal (v : StateValue) : bool :=
  match v with Done => true | _ => false end.

(** The snapshot the negative branch produces. *)
Definition afterNegative (ctx : DMContext) (output : str) : Snapshot :=
  mkSnapshot Loop_ProcessingResponse
    {| lastResult := output;
       extractedPerson := extractedPerson ctx;
       messages := messages ctx ++ [mkMessage user notSureText];
       isFirstMessage := isFirstMessage ctx |}.

(** A uniform random source with [n] equally likely values: [0/n], [1/n],
    ..., [(n-1)/n]. *)
Definition uniformValues (n : nat) : list Q :=
  map (fun k => (Z.of_nat k # Pos.of_nat n)%Q) (seq 0 n).

Definition sameState (a b : StateValue) : bool :=
  match a, b with
  | SetupFurhat_SetVoice, SetupFurhat_SetVoice
  | SetupFurhat_AttendUser, SetupFurhat_AttendUser
  | Loop_Speaking, Loop_Speaking
  | Loop_Listening, Loop_Listening
  | Loop_ProcessingResponse, Loop_ProcessingResponse
  | Manipulation_SpeakingWithPause_Condition1,
    Manipulation_SpeakingWithPause_Condition1
  | Manipulation_SpeakingWithLaughter_Condition2,
    Manipulation_SpeakingWithLaughter_Condition2
  | Manipulation_SpeakingWithBuffer_Condition3,
    Manipulation_SpeakingWithBuffer_Condition3
  | Manipulation_Listening, Manipulation_Listening
  | Manipulation_Clarify, Manipulation_Clarify
  | End, End
  | Done, Done => true
  | _, _ => false
  end.

(** Of the [n * n] equally likely pairs of independent draws, the number
    that select the state [v]. *)
Definition timesSelected (v : StateValue) (n : nat) : nat :=
  List.length
    (filter (fun r => sameState
                        (DetermineTheManipulationState
                           (mkInput (fst r) (snd r) error)) v)
            (list_prod (uniformValues n) (uniformValues n))).

(** ** How the pattern reads a text

    The words of the pattern, written out: a text matches when it splits
    into what comes before, "i", white space, "want", white space, an
    optional "the" with its white space, the subject, white space, "to",
    white space, "jump" and what comes after, with a word boundary on both
    sides. *)

(** A non-empty run of units of the class [p]. *)
Definition plusOf (p : ascii -> bool) (w : str) : bool :=
  match w with
  | [] => false
  | _ => forallb p w
  end.

Definition spaces : str -> bool := plusOf isWhiteSpace.
Definition subjectText : str -> bool := plusOf isDot.

Record Reading := mkReading {
  before : str;
  gap1 : str;
  gap2 : str;
  article : option str;     (* the white space after "the", when present *)
  subject : str;
  gap3 : str;
  gap4 : str;
  after : str
}.

Definition articleText (a : option str) : str :=
  match a with
  | Some g => lit "the" ++ g
  | None => []
  end.

Definition tailText (g3 g4 post : str) : str :=
  g3 ++ lit "to" ++ g4 ++ lit "jump" ++ post.

(** The text of a reading, from the subject on, from the article on, from
    the white space after "want" on, from the start of the match on, and
    as a whole. *)
Definition fromSubject (d : Reading) : str :=
  subject d ++ tailText (gap3 d) (gap4 d) (after d).

Definition fromArticle (d : Reading) : str :=
  articleText (article d) ++ fromSubject d.

Definition fromGap2 (d : Reading) : str := gap2 d ++ fromArticle d.

Definition fromStart (d : Reading) : str :=
  lit "i" ++ gap1 d ++ lit "want" ++ fromGap2 d.

Definition readingText (d : Reading) : str := before d ++ fromStart d.

Definition articleOk (a : option str) : bool :=
  match a with
  | Some g => spaces g
  | None => true
  end.

Definition okFromSubject (d : Reading) : bool :=
  subjectText (subject d) && spaces (gap3 d) && spaces (gap4 d)
  && negb (isWordAt (after d)).

Definition okFromArticle (d : Reading) : bool :=
  articleOk (article d) && okFromSubject d.

Definition okFromGap2 (d : Reading) : bool :=
  spaces (gap2 d) && okFromArticle d.

Definition okFromStart (d : Reading) : bool :=
  spaces (gap1 d) && okFromGap2 d.

(** A reading is well formed: the white space is white space, the subject
    is a non-empty text without line terminators, and no word unit stands
    right before the "i" or right after "jump". *)
Definition wellFormed (d : Reading) : bool :=
  negb (isWordAt (rev (before d))) && okFromStart d.

(** The order in which the matcher tries the readings of one text: an
    earlier start first; then more white space after "want"; then with
    "the" rather than without; then more white space after "the"; then a
    shorter subject. *)
Definition articleFirst (a : option str) (x : str) (a' : option str)
    (x' : str) : Prop :=
  match a, a' with
  | Some g, Some g' =>
      List.length g' < List.length g
      \/ (List.length g = List.length g'
          /\ List.length x <= List.length x')
  | Some _, None => True
  | None, Some _ => False
  | None, None => List.length x <= List.length x'
  end.

Definition gap2First (g : str) (a : option str) (x : str)
    (g' : str) (a' : option str) (x' : str) : Prop :=
  List.length g' < List.length g
  \/ (List.length g = List.length g' /\ articleFirst a x a' x').

Definition triedFirst (d d' : Reading) : Prop :=
  List.length (before d) < List.length (before d')
  \/ (List.length (before d) = List.length (before d')
      /\ gap2First (gap2 d) (article d) (subject d)
                   (gap2 d') (article d') (subject d')).

(** The reading the pattern settles on. *)
Definition chosenReading (s : str) (d : Reading) : Prop :=
  wellFormed d = true /\ readingText d = s
  /\ forall d', wellFormed d' = true -> readingText d' = s -> triedFirst d d'.

(** The state after the units [w] have been consumed, [t] being left. *)
Definition advance (w t : str) (x : MatchState) : MatchState :=
  mkState (rev w ++ seen x) t (cap x).

(** The pattern from the subject group on, from the optional article on
    and from the white space after "want" on. *)
Definition tailM : Matcher :=
  (mPlusGreedy isWhiteSpace ;; mLit (lit "to") ;;
   mPlusGreedy isWhiteSpace ;; mLit (lit "jump") ;; mWordBoundary)%re.

Definition subjectStage : Continuation := fun x =>
  mGroup (mPlusLazy isDot) x (fun y => tailM y (fun z => Some z)).

Definition articleStage : Continuation := fun x =>
  mOpt (mLit (lit "the") ;; mPlusGreedy isWhiteSpace)%re x subjectStage.

Definition gap2Stage : Continuation := fun x =>
  mPlusGreedy isWhiteSpace x articleStage.

(** What is left of a text reads as the end of the pattern, as the pattern
    from the subject on, from the article on, from the white space after
    "want" on, and from its start. *)
Definition TailOk (t : str) : Prop :=
  exists g3 g4 post,
    t = tailText g3 g4 post /\ spaces g3 = true /\ spaces g4 = true
    /\ isWordAt post = false.

Definition ReadsFromSubject (b : str) : Prop :=
  exists x t, b = x ++ t /\ subjectText x = true /\ TailOk t.

Definition ReadsFromArticle (a : str) : Prop :=
  exists art b,
    a = articleText art ++ b /\ articleOk art = true /\ ReadsFromSubject b.

Definition ReadsFromGap2 (r : str) : Prop :=
  exists g a, r = g ++ a /\ spaces g = true /\ ReadsFromArticle a.

Definition ReadsFromStart (sn s : str) : Prop :=
  isWordAt sn = false
  /\ exists g1 r,
       s = lit "i" ++ g1 ++ lit "want" ++ r /\ spaces g1 = true
       /\ ReadsFromGap2 r.

(** ** Further notions: speech delays and the shape of the transcript *)

(** [fhSay]: the pause after the request, in milliseconds; the parameter
    [isFirstMessage] defaults to [false]. *)
Definition fhSayDelay (isFirstMessage : bool) : N :=
  if isFirstMessage then 15000%N else 1000%N.

(** The pause of the speech a snapshot asks for, when it asks for one. *)
Definition speechDelay (s : Snapshot) : option N :=
  match invoke s with
  | Return (Some (fhSpeak _ isFirst)) => Some (fhSayDelay isFirst)
  | _ => None
  end.

Definition lastMessage (ms : list Message) : option Message :=
  match rev ms with
  | m :: _ => Some m
  | [] => None
  end.

(** The states entered with a user message last in the transcript. *)
Definition awaitsAssistant (v : StateValue) : bool :=
  match v with
  | Loop_ProcessingResponse
  | Manipulation_SpeakingWithPause_Condition1
  | Manipulation_SpeakingWithLaughter_Condition2
  | Manipulation_SpeakingWithBuffer_Condition3
  | Manipulation_Listening
  | Manipulation_Clarify
  | End => true
  | _ => false
  end.

(** The states of the manipulation and what follows it. *)
Definition afterDecision (v : StateValue) : bool :=
  match v with
  | Manipulation_SpeakingWithPause_Condition1
  | Manipulation_SpeakingWithLaughter_Condition2
  | Manipulation_SpeakingWithBuffer_Condition3
  | Manipulation_Listening
  | Manipulation_Clarify
  | End
  | Done => true
  | _ => false
  end.

Definition isAssistant (m : Message) : bool :=
  match role m with assistant => true | _ => false end.

(** No assistant message directly follows another one. *)
Fixpoint assistantsApart (ms : list Message) : bool :=
  match ms with
  | a :: (b :: _) as tl =>
      negb (isAssistant a && isAssistant b) && assistantsApart tl
  | _ => true
  end.

(** The last user message, as the guard [hasDecision] and the logging
    subscriber look it up. *)
Definition lastUserMessage (ms : list Message) : option Message :=
  match rev (filter isUser ms) with
  | m :: _ => Some m
  | [] => None
  end.

(** One round of the clarification loop: an answer is heard, then the
    clarification prompt is spoken. *)
Definition clarifyRound (heard spoken : Input) : list Input :=
  [heard; spoken].

(** A snapshot met in a session: the greeting was spoken, the participant
    said "I want the pilot to jump" and the first draw was 0. *)
Definition pilotContext : DMContext :=
  {| lastResult := lit "I want the pilot to jump";
     extractedPerson := lit "pilot";
     messages := messages initialContext
                 ++ [mkMessage user (lit "I want the pilot to jump")];
     isFirstMessage := false |}.

Definition pilotTrace : list Input :=
  [ mkInput 0 0 (done []); mkInput 0 0 (done []); mkInput 0 0 (done []);
    mkInput 0 0 (done (lit "I want the pilot to jump")) ].

(** With the last result replaced. *)
Definition withLastResult (ctx : DMContext) (output : str) : DMContext :=
  {| lastResult := output;
     extractedPerson := extractedPerson ctx;
     messages := messages ctx;
     isFirstMessage := isFirstMessage ctx |}.

(** [x] occurs in [s] as a contiguous piece. *)
Definition partOf (x s : str) : Prop := exists a b, s = a ++ x ++ b.

(** A text without white space: one word. *)
Definition noSpace (x : str) : bool :=
  forallb (fun c => negb (isWhiteSpace c)) x.

(** ** Reading the context off the run *)

(** The utterance a step hears, when the step is the resolution of a
    listen call. *)
Definition heard (i : Input) (s : Snapshot) : option str :=
  match value s, event i with
  | Loop_Listening, done utterance => Some utterance
  | Manipulation_Listening, done output => Some output
  | _, _ => None
  end.

(** The last utterance heard along a run, [acc] when none was. *)
Fixpoint lastHeard (acc : str) (s : Snapshot) (trace : list Input) : str :=
  match trace with
  | [] => acc
  | i :: trace' =>
      match step i s with
      | Some s' =>
          lastHeard (match heard i s with Some u => u | None => acc end)
                    s' trace'
      | None => acc
      end
  end.

(** What a step records in the transcript. *)
Definition recorded (i : Input) (s : Snapshot) : list Message :=
  match value s, event i with
  | Loop_Listening, done utterance => [mkMessage user utterance]
  | Loop_ProcessingResponse, done output => [mkMessage assistant output]
  | Loop_ProcessingResponse, error => [mkMessage assistant fallbackText]
  | Manipulation_Listening, done output =>
      if affirmative output then []
      else if negative output then [mkMessage user notSureText]
      else []
  | End, done _ => [mkMessage assistant closingText]
  | _, _ => []
  end.

(** What a run records, step after step. *)
Fixpoint transcriptOf (s : Snapshot) (trace : list Input) : list Message :=
  match trace with
  | [] => []
  | i :: trace' =>
      match step i s with
      | Some s' => recorded i s ++ transcriptOf s' trace'
      | None => []
      end
  end.

(** The subscriber of the actor logs the last user message as
    [messages.filter(m => m.role === "user").pop()?.content || "none"]:
    without a user message, or with an empty one, it logs "none". *)
Definition loggedLastUserMessage (ctx : DMContext) : str :=
  match lastUserMessage (messages ctx) with
  | Some m =>
      match content m with
      | [] => lit "none"
      | _ => content m
      end
  | None => lit "none"
  end.

(** Inputs that bring a session to its end: a decision, then "yes". *)
Definition hears (text : string) : Input := mkInput 0 0 (done (lit text)).

Definition wayOut (v : StateValue) : list Input :=
  let fromListening :=
    [hears "i want x to jump"; hears ""; hears "yes"; hears ""] in
  match v with
  | SetupFurhat_SetVoice => hears "" :: hears "" :: hears "" :: fromListening
  | SetupFurhat_AttendUser => hears "" :: hears "" :: fromListening
  | Loop_Speaking => hears "" :: fromListening
  | Loop_Listening => fromListening
  | Loop_ProcessingResponse => hears "" :: hears "" :: fromListening
  | Manipulation_SpeakingWithPause_Condition1
  | Manipulation_SpeakingWithLaughter_Condition2
  | Manipulation_SpeakingWithBuffer_Condition3
  | Manipulation_Clarify => [hears ""; hears "yes"; hears ""]
  | Manipulation_Listening => [hears "yes"; hears ""]
  | End => [hears ""]
  | Done => []
  end.

(** ** Sessions used as instances *)

(** The set-up succeeded and the greeting was spoken. *)
Definition greetedContext : DMContext :=
  {| lastResult := [];
     extractedPerson := [];
     messages := messages initialContext;
     isFirstMessage := false |}.

(** After that, the participant said "hello". *)
Definition helloTrace : list Input :=
  [hears ""; hears ""; hears ""; hears "hello"].

Definition helloContext : DMContext :=
  {| lastResult := lit "hello";
     extractedPerson := [];
     messages := messages initialContext ++ [mkMessage user (lit "hello")];
     isFirstMessage := false |}.

(** And the model answered "Why?". *)
Definition answeredContext : DMContext :=
  withMessages helloContext
    (messages helloContext ++ [mkMessage assistant (lit "Why?")]).

(** ** Results that are not texts

    The source types what an actor resolves with as a text, but the value
    comes out of [JSON.parse]: it can be any JSON value, or undefined. *)
Inductive JsValue :=
| JsString (s : str)
| NotAString.

(** The first guard of [Loop.Listening] on whatever [fhListen] resolved
    with: [extractPersonFromDecision] calls [toLowerCase] on it, which
    throws a [TypeError] on a value that is not a text. *)
Definition Loop_Listening_guard (output : JsValue) : completion bool :=
  match output with
  | JsString utterance =>
      match extractPersonFromDecision utterance with
      | Return extracted =>
          Return (match extracted with Some _ => true | None => false end)
      | Throw => Throw
      end
  | NotAString => Throw
  end.

(** The first guard of [Manipulation.Listening], likewise. *)
Definition Manipulation_Listening_guard (output : JsValue)
  : completion bool :=
  match output with
  | JsString text => Return (affirmative text)
  | NotAString => Throw
  end.

(** What the request to the chat endpoint can come to, the case included
    of a body that is read but whose [message.content] is not a text. *)
Inductive ChatResponse :=
| TextOrFailure (reply : OllamaReply)
| ContentNotText.

(** [fetchChatCompletion] on every such response: [data.message.content]
    is returned as it is, unchecked. *)
Definition fetchChatCompletionValue (response : ChatResponse)
  : completion JsValue :=
  match response with
  | TextOrFailure reply =>
      match fetchChatCompletion reply with
      | Return text => Return (JsString text)
      | Throw => Throw
      end
  | ContentNotText => Return NotAString
  end.

(** * Properties *)

(** ** String helpers *)

Lemma streq_eq (a b : str) : streq a b = true <-> a = b.
Proof.
  revert b; induction a as [|x a IH]; intros [|y b]; simpl;
    try (split; [discriminate | discriminate]); try tauto.
  unfold eqc. rewrite andb_true_iff, Ascii.eqb_eq, IH.
  split; [intros [-> ->]; reflexivity | intros E; inversion E; auto].
Qed.

Lemma startsWith_spec (s p : str) :
  startsWith s p = true <-> exists b, s = p ++ b.
Proof.
  revert s; induction p as [|x p IH]; intros s.
  - split; [intros _; exists s; reflexivity | intros _; destruct s; reflexivity].
  - destruct s as [|y s]; cbn [startsWith].
    + split; [discriminate | intros [b E]; discriminate].
    + unfold eqc. rewrite andb_true_iff, Ascii.eqb_eq, IH. split.
      * intros [-> [b ->]]. exists b. reflexivity.
      * intros [b E]. inversion E. split; [reflexivity | exists b; reflexivity].
Qed.

(** [includes] holds exactly when the needle occurs somewhere. *)
Lemma includes_spec (s sub : str) :
  includes s sub = true <-> exists a b, s = a ++ sub ++ b.
Proof.
  induction s as [|c s IH].
  - cbn [includes]. rewrite orb_false_r, startsWith_spec. split.
    + intros [b E]. exists [], b. exact E.
    + intros [a [b E]]. destruct a; [exists b; exact E | discriminate].
  - cbn [includes]. rewrite orb_true_iff, startsWith_spec, IH. split.
    + intros [[b E] | [a [b E]]].
      * exists [], b. exact E.
      * exists (c :: a), b. rewrite E. reflexivity.
    + intros [a [b E]]. destruct a as [|c' a].
      * left. exists b. exact E.
      * right. inversion E. exists a, b. reflexivity.
Qed.

(** ** The machine: one step at a time *)

Lemma withMessages_same (c : DMContext) : withMessages c (messages c) = c.
Proof. destruct c; reflexivity. Qed.

(** What a step appends to the transcript. *)
Lemma step_appends i s s' :
  step i s = Some s' ->
  exists added,
    messages (context s') = messages (context s) ++ added
    /\ Forall notSystem added.
Proof.
  destruct s as [v c]. unfold step. cbn [value context].
  destruct v, (event i) as [o|]; intros H;
    try (injection H as <-; exists []; cbn; rewrite app_nil_r; auto; fail);
    try discriminate.
  - unfold Loop_Listening_onDone in H.
    destruct (extractPersonFromDecision o) as [[p|]|]; try discriminate;
      injection H as <-; exists [mkMessage user o]; cbn;
      (split; [reflexivity | repeat constructor; discriminate]).
  - injection H as <-. exists [mkMessage assistant o]. cbn.
    split; [reflexivity | repeat constructor; discriminate].
  - injection H as <-. exists [mkMessage assistant fallbackText]. cbn.
    split; [reflexivity | repeat constructor; discriminate].
  - injection H as <-. unfold Manipulation_Listening_onDone.
    destruct (affirmative o); [|destruct (negative o)]; cbn.
    + exists []. rewrite app_nil_r. auto.
    + exists [mkMessage user notSureText].
      split; [reflexivity | repeat constructor; discriminate].
    + exists []. rewrite app_nil_r. auto.
  - injection H as <-. exists [mkMessage assistant closingText]. cbn.
    split; [reflexivity | repeat constructor; discriminate].
Qed.

Lemma run_app s t1 t2 :
  run s (t1 ++ t2) =
  match run s t1 with
  | Some s1 => run s1 t2
  | None => None
  end.
Proof.
  revert s; induction t1 as [|i t1 IH]; intros s; simpl.
  - reflexivity.
  - destruct (step i s); [apply IH | reflexivity].
Qed.

Lemma reachable_run s :
  reachable s <-> exists trace, run initial trace = Some s.
Proof.
  split.
  - induction 1 as [|s i s' _ [trace IH] Hs].
    + exists []. reflexivity.
    + exists (trace ++ [i]). rewrite run_app, IH. simpl. rewrite Hs.
      reflexivity.
  - intros [trace H]. revert s H.
    induction trace as [|i trace IH] using rev_ind; intros s H.
    + injection H as <-. constructor.
    + rewrite run_app in H. destruct (run initial trace) as [s1|] eqn:E1;
        [|discriminate].
      simpl in H. destruct (step i s1) as [s2|] eqn:E2; [|discriminate].
      injection H as <-.
      eapply reachable_step; [apply IH; reflexivity | exact E2].
Qed.

(** ** The confirmation recogniser of [Manipulation.Listening] *)

(** What the inline affirmative guard accepts. *)
Lemma affirmative_iff (output : str) :
  affirmative output = true <->
  let utterance := trim (toLowerCase output) in
  utterance = lit "yes" \/ utterance = lit "yeah" \/ utterance = lit "yep"
  \/ exists a b, utterance = a ++ lit "yes" ++ b.
Proof.
  unfold affirmative. cbv zeta.
  rewrite !orb_true_iff, !streq_eq, includes_spec. tauto.
Qed.

Lemma negative_iff (output : str) :
  negative output = true <->
  let utterance := trim (toLowerCase output) in
  utterance = lit "no" \/ utterance = lit "nope"
  \/ exists a b, utterance = a ++ lit "no" ++ b.
Proof.
  unfold negative. cbv zeta.
  rewrite !orb_true_iff, !streq_eq, includes_spec. tauto.
Qed.

(** The target follows the declaration order of the branches. *)
Lemma Manipulation_Listening_target (context : DMContext) (output : str) :
  value (Manipulation_Listening_onDone context output) =
  if affirmative output then End
  else if negative output then Loop_ProcessingResponse
  else Manipulation_Clarify.
Proof.
  unfold Manipulation_Listening_onDone.
  destruct (affirmative output); [|destruct (negative output)]; reflexivity.
Qed.

(** C3: in Manipulation.Listening the utterance "positive" is not taken as
    an affirmative answer: the inline guard omits it, so the machine goes to
    Clarify, while the guard saidYes declared for the same purpose accepts
    it.  An utterance with both "yes" and "no" goes to End. *)
Theorem positive_goes_to_Clarify (ctx : DMContext) :
  affirmative (lit "positive") = false
  /\ negative (lit "positive") = false
  /\ value (Manipulation_Listening_onDone ctx (lit "positive"))
     = Manipulation_Clarify
  /\ saidYes (context (Manipulation_Listening_onDone ctx (lit "positive")))
     = true
  /\ value (Manipulation_Listening_onDone ctx (lit "yes, no")) = End.
Proof. repeat split. Qed.

(** ** The transcript *)

(** C4: the transcript starts as one system message followed by one
    assistant message; every step from a reachable state keeps the
    messages it found, in their order, and appends after them only user and
    assistant messages, so everything after the two seed messages is a user
    or assistant message. *)
Theorem messages_append_only s i s' :
  reachable s -> step i s = Some s' ->
  map role (messages initialContext) = [system; assistant]
  /\ exists earlier added,
       messages (context s) = messages initialContext ++ earlier
       /\ messages (context s') = messages (context s) ++ added
       /\ Forall notSystem (earlier ++ added).
Proof.
  intros Hr Hs. split; [reflexivity|].
  assert (exists earlier, messages (context s) = messages initialContext ++ earlier
                          /\ Forall notSystem earlier) as [earlier [He Hf]].
  { clear Hs. induction Hr as [|s0 j s1 _ [e [He Hf]] Hs].
    - exists []. split; [reflexivity | constructor].
    - destruct (step_appends _ _ _ Hs) as [a [Ha Hfa]].
      exists (e ++ a). rewrite Ha, He, app_assoc. split; [reflexivity|].
      apply Forall_app; auto. }
  destruct (step_appends _ _ _ Hs) as [added [Ha Hfa]].
  exists earlier, added. repeat split; auto. apply Forall_app; auto.
Qed.

Lemma hello_reachable :
  reachable (mkSnapshot Loop_ProcessingResponse helloContext).
Proof. apply reachable_run. exists helloTrace. vm_compute. reflexivity. Qed.

Lemma answered_reachable :
  reachable (mkSnapshot Loop_Speaking answeredContext).
Proof.
  apply reachable_run. exists (helloTrace ++ [hears "Why?"]).
  vm_compute. reflexivity.
Qed.

Lemma messages_append_only_witness :
  (exists earlier added,
      messages (context (mkSnapshot Loop_ProcessingResponse helloContext))
      = messages initialContext ++ earlier
      /\ messages (context (mkSnapshot Loop_Speaking answeredContext))
         = messages (context (mkSnapshot Loop_ProcessingResponse
                                helloContext)) ++ added
      /\ Forall notSystem (earlier ++ added))
  /\ messages answeredContext
     = messages initialContext
       ++ [mkMessage user (lit "hello"); mkMessage assistant (lit "Why?")].
Proof.
  split.
  - exact (proj2 (messages_append_only
                    (mkSnapshot Loop_ProcessingResponse helloContext)
                    (hears "Why?")
                    (mkSnapshot Loop_Speaking answeredContext)
                    hello_reachable eq_refl)).
  - reflexivity.
Defined.

(** ** The Completion Service *)

(** The promise actor never rejects, whatever the request comes to. *)
Lemma chatCompletion_never_rejects (reply : OllamaReply) :
  chatCompletion reply <> error.
Proof. destruct reply; discriminate. Qed.

(** The transition the machine declares for a rejection. *)
Lemma ProcessingResponse_onError r1 r2 (ctx : DMContext) :
  step (mkInput r1 r2 error) (mkSnapshot Loop_ProcessingResponse ctx)
  = Some (mkSnapshot Loop_Speaking
            (withMessages ctx
               (messages ctx ++ [mkMessage assistant fallbackText]))).
Proof. reflexivity. Qed.

(** C5: when the request to the Completion Service is rejected in
    ProcessingResponse, the adapter turns the failure into the text "Error
    while connecting to the language model. ...", the machine appends that
    text (not the fallback "I couldn't process that. Please say it again.")
    as the assistant message and goes to Speaking, where that text is what
    the Voice Service is asked to say. *)
Theorem completion_failure_is_spoken r1 r2 (ctx : DMContext) :
  let after :=
    mkSnapshot Loop_Speaking
      (withMessages ctx
         (messages ctx ++ [mkMessage assistant connectionErrorText])) in
  completionStep FetchRejected r1 r2 (mkSnapshot Loop_ProcessingResponse ctx)
  = Some after
  /\ invoke after
     = Return (Some (fhSpeak connectionErrorText (isFirstMessage ctx)))
  /\ connectionErrorText <> fallbackText.
Proof.
  cbv zeta. split; [reflexivity|]. split; [|discriminate].
  unfold invoke. cbn [value context withMessages messages].
  rewrite rev_app_distr. reflexivity.
Qed.

(** ** The negative answer *)

Lemma Manipulation_Listening_negative i (ctx : DMContext) (output : str) :
  event i = done output ->
  affirmative output = false ->
  negative output = true ->
  step i (mkSnapshot Manipulation_Listening ctx)
  = Some (afterNegative ctx output).
Proof.
  intros He Ha Hn. unfold step. cbn [value context]. rewrite He.
  unfold Manipulation_Listening_onDone. rewrite Ha, Hn. reflexivity.
Qed.

(** C6: in Manipulation.Listening, an utterance that fails the affirmative
    guard and passes the negative one sets lastResult, appends the user
    message "I am not sure." and leads straight to Loop.ProcessingResponse,
    whose invocation hands the whole transcript, that message included, to
    the Completion Service. *)
Theorem negative_answer_resumes_processing i (ctx : DMContext) (output : str) :
  event i = done output ->
  affirmative output = false ->
  negative output = true ->
  let history := messages ctx ++ [mkMessage user notSureText] in
  let after :=
    mkSnapshot Loop_ProcessingResponse
      {| lastResult := output;
         extractedPerson := extractedPerson ctx;
         messages := history;
         isFirstMessage := isFirstMessage ctx |} in
  step i (mkSnapshot Manipulation_Listening ctx) = Some after
  /\ invoke after = Return (Some (callChatCompletion history)).
Proof.
  intros He Ha Hn. cbv zeta. split; [|reflexivity].
  exact (Manipulation_Listening_negative _ _ _ He Ha Hn).
Qed.

Lemma negative_answer_resumes_processing_witness :
  step (mkInput 0 0 (done (lit "No.")))
       (mkSnapshot Manipulation_Listening initialContext)
  = Some (mkSnapshot Loop_ProcessingResponse
            {| lastResult := lit "No.";
               extractedPerson := [];
               messages := messages initialContext
                           ++ [mkMessage user notSureText];
               isFirstMessage := true |}).
Proof.
  exact (proj1 (negative_answer_resumes_processing
                  (mkInput 0 0 (done (lit "No."))) initialContext (lit "No.")
                  eq_refl eq_refl eq_refl)).
Defined.

(** ** The end of the session *)

(** C7, as the code has it: End asks the Voice Service to say "Thank you
    for your participation." and goes to Done whether the call succeeds or
    fails; the line is appended as an assistant message when the call
    succeeds, and the context is left as it was when the call fails. *)
Theorem End_reaches_Done i (ctx : DMContext) :
  invoke (mkSnapshot End ctx) = Return (Some (fhSpeak closingText false))
  /\ step i (mkSnapshot End ctx)
     = Some (mkSnapshot Done
               match event i with
               | done _ =>
                   withMessages ctx
                     (messages ctx ++ [mkMessage assistant closingText])
               | error => ctx
               end)
  /\ forall j c, step j (mkSnapshot Done c) = None.
Proof.
  split; [reflexivity|]. split; [|reflexivity].
  unfold step. cbn [value context]. destruct (event i); reflexivity.
Qed.

(** C7 as stated fails: after a failed voice call in End the closing line
    is not in the transcript. *)
Lemma End_failure_appends_nothing :
  exists s',
    step (mkInput 0 0 error) (mkSnapshot End initialContext) = Some s'
    /\ value s' = Done
    /\ messages (context s') = messages initialContext
    /\ ~ In (mkMessage assistant closingText) (messages (context s')).
Proof.
  eexists. split; [reflexivity|]. repeat split.
  cbn. intros [H|[H|[]]]; discriminate.
Qed.

(** ** The first-message flag *)

Lemma step_isFirstMessage i s s' :
  step i s = Some s' ->
  isFirstMessage (context s')
  = isFirstMessage (context s) && negb (speakingCompleted i s).
Proof.
  destruct s as [v c]. unfold step, speakingCompleted. cbn [value context].
  destruct v, (event i) as [o|]; intros H; try discriminate;
    try (injection H as <-; cbn; rewrite ?andb_true_r, ?andb_false_r;
         reflexivity).
  - unfold Loop_Listening_onDone in H.
    destruct (extractPersonFromDecision o) as [[p|]|]; try discriminate;
      injection H as <-; cbn; rewrite andb_true_r; reflexivity.
  - injection H as <-. unfold Manipulation_Listening_onDone.
    destruct (affirmative o); [|destruct (negative o)]; cbn;
      rewrite andb_true_r; reflexivity.
Qed.

Lemma run_isFirstMessage trace : forall s s',
  run s trace = Some s' ->
  isFirstMessage (context s')
  = isFirstMessage (context s) && negb (hasSpoken s trace).
Proof.
  induction trace as [|i trace IH]; intros s s'; simpl.
  - intros [= <-]. rewrite andb_true_r. reflexivity.
  - destruct (step i s) as [s1|] eqn:E; [|discriminate].
    intros H. rewrite (IH _ _ H), (step_isFirstMessage _ _ _ E).
    rewrite negb_orb, andb_assoc. reflexivity.
Qed.

(** C8: the flag starts true, and after any run of the session it is true
    exactly when no step of the run was a successful completion of the
    voice call of Loop.Speaking; that completion sets it to false, while a
    failed call, and the voice calls of the other states, leave it as it
    was. *)
Theorem isFirstMessage_until_spoken trace s :
  run initial trace = Some s ->
  isFirstMessage (context initial) = true
  /\ (isFirstMessage (context s) = true <-> hasSpoken initial trace = false)
  /\ forall i ctx,
       exists s',
         step i (mkSnapshot Loop_Speaking ctx) = Some s'
         /\ value s' = Loop_Listening
         /\ isFirstMessage (context s')
            = match event i with
              | done _ => false
              | error => isFirstMessage ctx
              end.
Proof.
  intros H. split; [reflexivity|]. split.
  - rewrite (run_isFirstMessage _ _ _ H).
    cbn [initial context initialContext isFirstMessage].
    rewrite andb_true_l.
    destruct (hasSpoken initial trace); cbn; intuition congruence.
  - intros i ctx. unfold step. cbn [value context].
    destruct (event i); eexists; repeat split.
Qed.

Lemma isFirstMessage_until_spoken_witness :
  (isFirstMessage (context (mkSnapshot Loop_Listening greetedContext)) = true
   <-> hasSpoken initial [mkInput 0 0 error; mkInput 0 0 (done [])] = false)
  /\ isFirstMessage (context (mkSnapshot Loop_Listening greetedContext))
     = false
  /\ hasSpoken initial [mkInput 0 0 error; mkInput 0 0 (done [])] = true.
Proof.
  split.
  - exact (proj1 (proj2 (isFirstMessage_until_spoken
             [mkInput 0 0 error; mkInput 0 0 (done [])]
             (mkSnapshot Loop_Listening greetedContext) eq_refl))).
  - split; reflexivity.
Defined.

(** ** The terminal state *)

Lemma Determine_not_final i :
  DetermineTheManipulationState i <> Done
  /\ DetermineTheManipulationState i <> End
  /\ isFinal (DetermineTheManipulationState i) = false.
Proof.
  unfold DetermineTheManipulationState.
  destruct (isSpeakingWithBuffer (random1 i)),
    (isSpeakingWithLaughter (random2 i)); repeat split; discriminate.
Qed.

(** C9, as the code has it: Done is entered only from End, on the success
    and on the failure of its voice call alike; End is entered only by the
    affirmative branch of Manipulation.Listening; and the error transition
    of every state other than End leads to a state that is not final. *)
Theorem Done_only_after_affirmative i s s' :
  step i s = Some s' ->
  (value s' = Done -> value s = End)
  /\ (value s' = End ->
      value s = Manipulation_Listening
      /\ exists output, event i = done output /\ affirmative output = true)
  /\ (event i = error -> value s <> End -> isFinal (value s') = false).
Proof.
  destruct s as [v c]. unfold step. cbn [value context].
  pose proof (Determine_not_final i) as [D1 [D2 D3]].
  destruct v, (event i) as [o|] eqn:Ev; intros H; try discriminate;
    try (injection H as <-; cbn [value];
         repeat split; intros; try discriminate; try reflexivity;
         try congruence; fail).
  - unfold Loop_Listening_onDone in H.
    destruct (extractPersonFromDecision o) as [[p|]|]; try discriminate;
      injection H as <-; cbn [value];
      repeat split; intros; try discriminate; try congruence.
  - injection H as <-. rewrite Manipulation_Listening_target.
    destruct (affirmative o) eqn:A; [|destruct (negative o)];
      repeat split; intros; try discriminate; eauto.
Qed.

Lemma Done_only_after_affirmative_witness :
  value (mkSnapshot Manipulation_Listening initialContext)
  = Manipulation_Listening
  /\ exists output,
       event (mkInput 0 0 (done (lit "yes"))) = done output
       /\ affirmative output = true.
Proof.
  exact (proj1 (proj2 (Done_only_after_affirmative
    (mkInput 0 0 (done (lit "yes")))
    (mkSnapshot Manipulation_Listening initialContext) _ eq_refl)) eq_refl).
Defined.

(** C9 as stated fails: the error transition of End leads to Done. *)
Lemma End_error_reaches_Done :
  exists s',
    step (mkInput 0 0 error) (mkSnapshot End initialContext) = Some s'
    /\ isFinal (value s') = true.
Proof. eexists. split; reflexivity. Qed.

(** ** Speaking inside Manipulation *)

Example questions_for_pilot :
  let ctx := {| lastResult := []; extractedPerson := lit "pilot";
                messages := []; isFirstMessage := false |} in
  pauseQuestion ctx = lit "........   The pilot?"
  /\ laughterQuestion ctx = lit "Hahahaha! The pilot?"
  /\ bufferQuestion ctx = lit "Hmmmmm, the pilot?".
Proof. repeat split. Qed.

(** C10: each of the three condition states and Clarify asks the Voice
    Service to say its question (the template filled with extractedPerson,
    or the clarification prompt) and, whether the call succeeds or fails,
    goes to Manipulation.Listening with the whole context (messages,
    lastResult, extractedPerson, isFirstMessage) as it was; so when the
    answer heard next is negative, the history handed to the Completion
    Service is the transcript from before the question followed by the
    user message "I am not sure." alone. *)
Theorem manipulation_speech_not_recorded v (ctx : DMContext) (q : str) i :
  manipulationPrompt v ctx = Some q ->
  invoke (mkSnapshot v ctx) = Return (Some (fhSpeak q false))
  /\ step i (mkSnapshot v ctx) = Some (mkSnapshot Manipulation_Listening ctx)
  /\ forall j output,
       event j = done output ->
       affirmative output = false -> negative output = true ->
       exists s',
         run (mkSnapshot v ctx) [i; j] = Some s'
         /\ lastResult (context s') = output
         /\ extractedPerson (context s') = extractedPerson ctx
         /\ isFirstMessage (context s') = isFirstMessage ctx
         /\ invoke s'
            = Return (Some (callChatCompletion
                              (messages ctx ++ [mkMessage user notSureText]))).
Proof.
  intros Hq.
  assert (Hs : step i (mkSnapshot v ctx)
               = Some (mkSnapshot Manipulation_Listening ctx)).
  { unfold step. cbn [value context].
    destruct v; try discriminate; destruct (event i); reflexivity. }
  split; [|split; [exact Hs|]].
  - destruct v; try discriminate; injection Hq as <-; reflexivity.
  - intros j output He Ha Hn.
    exists (afterNegative ctx output). cbn [run]. rewrite Hs.
    rewrite (Manipulation_Listening_negative _ _ _ He Ha Hn).
    unfold afterNegative. cbn [context lastResult extractedPerson isFirstMessage].
    repeat split.
Qed.

(** ** The manipulation condition selector *)
















(** ** The matcher combinators *)

Lemma advance_cons c w t x :
  advance (c :: w) t x = advance w t (mkState (c :: seen x) (w ++ t) (cap x)).
Proof. unfold advance. cbn. rewrite <- app_assoc. reflexivity. Qed.

Lemma mLit_eq l : forall t x k,
  rest x = l ++ t -> mLit l x k = k (advance l t x).
Proof.
  induction l as [|c l IH]; intros t x k E.
  - cbn in *. unfold mEmpty, advance. cbn. rewrite <- E.
    destruct x; reflexivity.
  - cbn [mLit]. unfold mSeq, mChar. rewrite E. cbn.
    unfold eqc. rewrite Ascii.eqb_refl.
    rewrite (IH t) by reflexivity. rewrite advance_cons. reflexivity.
Qed.

Lemma mLit_some l : forall x k r,
  mLit l x k = Some r -> exists t, rest x = l ++ t.
Proof.
  induction l as [|c l IH]; intros x k r H.
  - exists (rest x). reflexivity.
  - cbn [mLit] in H. unfold mSeq, mChar in H.
    destruct (rest x) as [|c' s'] eqn:E; [discriminate|].
    destruct (eqc c c') eqn:Ec; [|discriminate].
    apply Ascii.eqb_eq in Ec. subst c'.
    apply IH in H. destruct H as [t Ht]. cbn in Ht. subst s'.
    exists t. reflexivity.
Qed.

Lemma starGreedy_none p k : forall s sn cp,
  starGreedy p k sn s cp = None ->
  forall w t, s = w ++ t -> forallb p w = true ->
  k (mkState (rev w ++ sn) t cp) = None.
Proof.
  induction s as [|c s IH]; intros sn cp H w t E Hw.
  - destruct w; [|discriminate]. cbn in E. subst t. exact H.
  - cbn [starGreedy] in H. destruct w as [|c' w].
    + cbn in E. subst t. cbn.
      destruct (p c); [|exact H].
      destruct (starGreedy p k (c :: sn) s cp); [discriminate | exact H].
    + cbn in E. injection E as <- ->. cbn in Hw.
      apply andb_true_iff in Hw. destruct Hw as [Hc Hw]. rewrite Hc in H.
      destruct (starGreedy p k (c :: sn) (w ++ t) cp) eqn:G; [discriminate|].
      cbn. rewrite <- app_assoc. apply (IH _ _ G w t eq_refl Hw).
Qed.

Lemma starGreedy_some p k : forall s sn cp r,
  starGreedy p k sn s cp = Some r ->
  exists w t,
    s = w ++ t /\ forallb p w = true
    /\ k (mkState (rev w ++ sn) t cp) = Some r
    /\ forall w' t', s = w' ++ t' -> forallb p w' = true ->
                     List.length w < List.length w' ->
                     k (mkState (rev w' ++ sn) t' cp) = None.
Proof.
  induction s as [|c s IH]; intros sn cp r H.
  - exists [], []. repeat split; auto.
    intros w' t' E _ L. destruct w'; [cbn in L; lia | discriminate].
  - cbn [starGreedy] in H. destruct (p c) eqn:Hc.
    + destruct (starGreedy p k (c :: sn) s cp) as [r'|] eqn:G.
      * cbn in H. injection H as <-.
        destruct (IH _ _ _ G) as [w [t [E [Hw [Hk Hmax]]]]].
        exists (c :: w), t. subst s. repeat split.
        -- cbn. rewrite Hc, Hw. reflexivity.
        -- cbn. rewrite <- app_assoc. exact Hk.
        -- intros w' t' E' Hw' L. destruct w' as [|c' w']; [cbn in L; lia|].
           cbn in E'. injection E' as <- E'. cbn in Hw'.
           apply andb_true_iff in Hw'. destruct Hw' as [_ Hw'].
           cbn. rewrite <- app_assoc. apply Hmax; auto. cbn in L. lia.
      * cbn in H. exists [], (c :: s). repeat split; auto.
        intros w' t' E' Hw' L. destruct w' as [|c' w']; [cbn in L; lia|].
        cbn in E'. injection E' as <- E'. cbn in Hw'.
        apply andb_true_iff in Hw'. destruct Hw' as [_ Hw'].
        cbn. rewrite <- app_assoc.
        eapply starGreedy_none; eassumption.
    + exists [], (c :: s). repeat split; auto.
      intros w' t' E' Hw' L. destruct w' as [|c' w']; [cbn in L; lia|].
      cbn in E'. injection E' as <- E'. cbn in Hw'. rewrite Hc in Hw'.
      discriminate.
Qed.

Lemma starLazy_none p k : forall s sn cp,
  starLazy p k sn s cp = None ->
  forall w t, s = w ++ t -> forallb p w = true ->
  k (mkState (rev w ++ sn) t cp) = None.
Proof.
  induction s as [|c s IH]; intros sn cp H w t E Hw.
  - destruct w; [|discriminate]. cbn in E. subst t. cbn in *.
    destruct (k (mkState sn [] cp)); [discriminate | reflexivity].
  - cbn [starLazy] in H.
    destruct (k (mkState sn (c :: s) cp)) eqn:K; [discriminate|]. cbn in H.
    destruct w as [|c' w].
    + cbn in E. subst t. exact K.
    + cbn in E. injection E as <- ->. cbn in Hw.
      apply andb_true_iff in Hw. destruct Hw as [Hc Hw]. rewrite Hc in H.
      cbn. rewrite <- app_assoc. apply (IH _ _ H w t eq_refl Hw).
Qed.

Lemma starLazy_some p k : forall s sn cp r,
  starLazy p k sn s cp = Some r ->
  exists w t,
    s = w ++ t /\ forallb p w = true
    /\ k (mkState (rev w ++ sn) t cp) = Some r
    /\ forall w' t', s = w' ++ t' ->
                     List.length w' < List.length w ->
                     k (mkState (rev w' ++ sn) t' cp) = None.
Proof.
  induction s as [|c s IH]; intros sn cp r H.
  - cbn in H. destruct (k (mkState sn [] cp)) eqn:K; [|discriminate].
    cbn in H. injection H as <-. exists [], []. repeat split; auto.
    intros w' t' _ L. cbn in L. lia.
  - cbn [starLazy] in H.
    destruct (k (mkState sn (c :: s) cp)) as [r'|] eqn:K.
    + cbn in H. injection H as <-. exists [], (c :: s). repeat split; auto.
      intros w' t' _ L. cbn in L. lia.
    + cbn in H. destruct (p c) eqn:Hc; [|discriminate].
      destruct (IH _ _ _ H) as [w [t [E [Hw [Hk Hmin]]]]].
      exists (c :: w), t. subst s. repeat split.
      * cbn. rewrite Hc, Hw. reflexivity.
      * cbn. rewrite <- app_assoc. exact Hk.
      * intros w' t' E' L. destruct w' as [|c' w'].
        -- cbn in E'. subst t'. exact K.
        -- cbn in E'. injection E' as <- E'. cbn. rewrite <- app_assoc.
           apply Hmin; auto. cbn in L. lia.
Qed.

Lemma advance_advance w1 t1 w2 t2 x :
  advance w2 t2 (advance w1 t1 x) = advance (w1 ++ w2) t2 x.
Proof.
  unfold advance. cbn. rewrite rev_app_distr, <- app_assoc. reflexivity.
Qed.

Lemma plusOf_cons p c w :
  plusOf p (c :: w) = p c && forallb p w.
Proof. reflexivity. Qed.

Lemma plusOf_forallb p w : plusOf p w = true -> forallb p w = true.
Proof. destruct w; [discriminate | auto]. Qed.

Lemma plusOf_nonempty p w : plusOf p w = true -> w <> [].
Proof. destruct w; [discriminate | discriminate]. Qed.

Lemma plusOf_intro p w : w <> [] -> forallb p w = true -> plusOf p w = true.
Proof. destruct w; [congruence | auto]. Qed.

Lemma mPlusGreedy_some p x k r :
  mPlusGreedy p x k = Some r ->
  exists w t,
    rest x = w ++ t /\ plusOf p w = true
    /\ k (advance w t x) = Some r
    /\ forall w' t', rest x = w' ++ t' -> forallb p w' = true ->
                     List.length w < List.length w' ->
                     k (advance w' t' x) = None.
Proof.
  unfold mPlusGreedy, mChar. destruct (rest x) as [|c s]; [discriminate|].
  destruct (p c) eqn:Hc; [|discriminate]. cbn [seen rest cap]. intros H.
  destruct (starGreedy_some _ _ _ _ _ _ H) as [w [t [E [Hw [Hk Hmax]]]]].
  exists (c :: w), t. subst s. repeat split.
  - rewrite plusOf_cons, Hc, Hw. reflexivity.
  - unfold advance. cbn. rewrite <- app_assoc. exact Hk.
  - intros w' t' E' Hw' L. destruct w' as [|c' w']; [cbn in L; lia|].
    cbn in E'. injection E' as <- E'. cbn in Hw'.
    apply andb_true_iff in Hw'. destruct Hw' as [_ Hw'].
    unfold advance. cbn. rewrite <- app_assoc. apply Hmax; auto.
    cbn in L. lia.
Qed.

Lemma mPlusGreedy_none p x k :
  mPlusGreedy p x k = None ->
  forall w t, rest x = w ++ t -> plusOf p w = true ->
  k (advance w t x) = None.
Proof.
  unfold mPlusGreedy, mChar. intros H w t E Hw.
  destruct w as [|c w]; [discriminate|]. rewrite E in H. cbn in H.
  rewrite plusOf_cons in Hw. apply andb_true_iff in Hw.
  destruct Hw as [Hc Hw]. rewrite Hc in H.
  unfold advance. cbn. rewrite <- app_assoc.
  eapply starGreedy_none; [exact H | reflexivity | exact Hw].
Qed.

Lemma mPlusLazy_some p x k r :
  mPlusLazy p x k = Some r ->
  exists w t,
    rest x = w ++ t /\ plusOf p w = true
    /\ k (advance w t x) = Some r
    /\ forall w' t', rest x = w' ++ t' -> w' <> [] ->
                     List.length w' < List.length w ->
                     k (advance w' t' x) = None.
Proof.
  unfold mPlusLazy, mChar. destruct (rest x) as [|c s]; [discriminate|].
  destruct (p c) eqn:Hc; [|discriminate]. cbn [seen rest cap]. intros H.
  destruct (starLazy_some _ _ _ _ _ _ H) as [w [t [E [Hw [Hk Hmin]]]]].
  exists (c :: w), t. subst s. repeat split.
  - rewrite plusOf_cons, Hc, Hw. reflexivity.
  - unfold advance. cbn. rewrite <- app_assoc. exact Hk.
  - intros w' t' E' Hne L. destruct w' as [|c' w']; [congruence|].
    cbn in E'. injection E' as <- E'.
    unfold advance. cbn. rewrite <- app_assoc. apply Hmin; auto.
    cbn in L. lia.
Qed.

Lemma mPlusLazy_none p x k :
  mPlusLazy p x k = None ->
  forall w t, rest x = w ++ t -> plusOf p w = true ->
  k (advance w t x) = None.
Proof.
  unfold mPlusLazy, mChar. intros H w t E Hw.
  destruct w as [|c w]; [discriminate|]. rewrite E in H. cbn in H.
  rewrite plusOf_cons in Hw. apply andb_true_iff in Hw.
  destruct Hw as [Hc Hw]. rewrite Hc in H.
  unfold advance. cbn. rewrite <- app_assoc.
  eapply starLazy_none; [exact H | reflexivity | exact Hw].
Qed.

(** A run of [p] that ends at a unit outside [p] is determined. *)
Lemma run_unique (p : ascii -> bool) : forall (w w' : str) c c' t t',
  forallb p w = true -> forallb p w' = true ->
  p c = false -> p c' = false ->
  w ++ c :: t = w' ++ c' :: t' -> w = w' /\ c = c' /\ t = t'.
Proof.
  induction w as [|a w IH]; intros [|a' w'] c c' t t' Hw Hw' Hc Hc' E;
    cbn in *.
  - injection E as -> ->. auto.
  - injection E as -> _. apply andb_true_iff in Hw'. destruct Hw' as [Ha _].
    congruence.
  - injection E as -> _. apply andb_true_iff in Hw. destruct Hw as [Ha _].
    congruence.
  - injection E as -> E. apply andb_true_iff in Hw, Hw'.
    destruct Hw as [_ Hw], Hw' as [_ Hw'].
    destruct (IH _ _ _ _ _ Hw Hw' Hc Hc' E) as [-> [-> ->]]. auto.
Qed.

Lemma app_same_length (A : Type) : forall (a a' b b' : list A),
  a ++ b = a' ++ b' -> List.length a = List.length a' -> a = a' /\ b = b'.
Proof.
  induction a as [|x a IH]; intros [|x' a'] b b' E L; cbn in *;
    try discriminate; auto.
  injection E as -> E. injection L as L.
  destruct (IH _ _ _ E L) as [-> ->]. auto.
Qed.

(** A greedy run before a literal that starts outside the class takes the
    whole run: every shorter choice fails at the literal. *)
Lemma greedy_then_lit p c l k x w t :
  rest x = w ++ (c :: l) ++ t -> plusOf p w = true -> p c = false ->
  mPlusGreedy p x (fun y => mLit (c :: l) y k)
  = k (advance (w ++ c :: l) t x).
Proof.
  intros E Hw Hc.
  destruct (mPlusGreedy p x (fun y => mLit (c :: l) y k)) as [r|] eqn:G.
  - destruct (mPlusGreedy_some _ _ _ _ G) as [w0 [t0 [E0 [Hw0 [Hk _]]]]].
    destruct (mLit_some _ _ _ _ Hk) as [t1 E1]. cbn [advance rest] in E1.
    subst t0. rewrite E in E0. cbn [app] in E0.
    destruct (run_unique p w w0 c c (l ++ t) (l ++ t1)
                (plusOf_forallb _ _ Hw) (plusOf_forallb _ _ Hw0) Hc Hc E0)
      as [<- [_ E2]].
    apply app_inv_head in E2. subst t1.
    rewrite (mLit_eq (c :: l) t) in Hk by reflexivity.
    rewrite advance_advance in Hk. symmetry. exact Hk.
  - pose proof (mPlusGreedy_none _ _ _ G w ((c :: l) ++ t) E Hw) as N.
    cbn beta in N. rewrite (mLit_eq (c :: l) t) in N by reflexivity.
    rewrite advance_advance in N. symmetry. exact N.
Qed.

Lemma greedy_then_lit_some p c l k x r :
  p c = false ->
  mPlusGreedy p x (fun y => mLit (c :: l) y k) = Some r ->
  exists w t,
    rest x = w ++ (c :: l) ++ t /\ plusOf p w = true
    /\ k (advance (w ++ c :: l) t x) = Some r.
Proof.
  intros Hc G.
  destruct (mPlusGreedy_some _ _ _ _ G) as [w0 [t0 [E0 [Hw0 [Hk _]]]]].
  destruct (mLit_some _ _ _ _ Hk) as [t1 E1]. cbn [advance rest] in E1.
  subst t0. exists w0, t1. repeat split; auto.
  rewrite <- (greedy_then_lit p c l k x w0 t1 E0 Hw0 Hc). exact G.
Qed.

Lemma greedy_lit p l c l' k x w t :
  l = c :: l' -> p c = false ->
  rest x = w ++ l ++ t -> plusOf p w = true ->
  mPlusGreedy p x (fun y => mLit l y k) = k (advance (w ++ l) t x).
Proof. intros ->. intros. apply greedy_then_lit; assumption. Qed.

Lemma greedy_lit_some p l c l' k x r :
  l = c :: l' -> p c = false ->
  mPlusGreedy p x (fun y => mLit l y k) = Some r ->
  exists w t, rest x = w ++ l ++ t /\ plusOf p w = true.
Proof.
  intros -> Hc G.
  destruct (greedy_then_lit_some p c l' k x r Hc G) as [w [t [E [Hw _]]]].
  eauto.
Qed.

(** ** The end of the pattern *)

Lemma seen_after_jump w t x :
  isWordAt (seen (advance (w ++ lit "jump") t x)) = true.
Proof. unfold advance. cbn [seen]. rewrite rev_app_distr. reflexivity. Qed.

Lemma tailM_eq x k g3 g4 post :
  rest x = tailText g3 g4 post -> spaces g3 = true -> spaces g4 = true ->
  tailM x k =
  if isWordAt post then None
  else k (advance (g3 ++ lit "to" ++ g4 ++ lit "jump") post x).
Proof.
  intros E H3 H4. unfold tailM, mSeq.
  rewrite (greedy_lit isWhiteSpace (lit "to") "t"%char (lit "o") _ x g3
             (g4 ++ lit "jump" ++ post) eq_refl eq_refl E H3).
  rewrite (greedy_lit isWhiteSpace (lit "jump") "j"%char (lit "ump") _
             (advance (g3 ++ lit "to") (g4 ++ lit "jump" ++ post) x) g4
             post eq_refl eq_refl eq_refl H4).
  unfold mWordBoundary. rewrite seen_after_jump. cbn [rest advance xorb].
  destruct (isWordAt post); cbn [negb]; [reflexivity|].
  rewrite advance_advance, <- app_assoc. reflexivity.
Qed.

Lemma tailM_some x k r :
  tailM x k = Some r ->
  exists g3 g4 post,
    rest x = tailText g3 g4 post /\ spaces g3 = true /\ spaces g4 = true
    /\ isWordAt post = false
    /\ k (advance (g3 ++ lit "to" ++ g4 ++ lit "jump") post x) = Some r.
Proof.
  intros H. pose proof H as H0. unfold tailM, mSeq in H0.
  destruct (greedy_lit_some isWhiteSpace (lit "to") "t"%char (lit "o") _ x r
              eq_refl eq_refl H0) as [g3 [t [E H3]]].
  rewrite (greedy_lit isWhiteSpace (lit "to") "t"%char (lit "o") _ x g3 t
             eq_refl eq_refl E H3) in H0.
  destruct (greedy_lit_some isWhiteSpace (lit "jump") "j"%char (lit "ump")
              _ _ r eq_refl eq_refl H0) as [g4 [post [E4 H4]]].
  cbn [rest advance] in E4. subst t.
  exists g3, g4, post.
  rewrite (tailM_eq x k g3 g4 post E H3 H4) in H.
  destruct (isWordAt post); [discriminate|]. auto.
Qed.

Lemma tailM_none x :
  tailM x (fun z => Some z) = None -> ~ TailOk (rest x).
Proof.
  intros H [g3 [g4 [post [E [H3 [H4 Hb]]]]]].
  rewrite (tailM_eq x _ g3 g4 post E H3 H4), Hb in H. discriminate.
Qed.

(** The end of the pattern reads a text in one way only. *)
Lemma tailText_unique g3 g4 post g3' g4' post' :
  tailText g3 g4 post = tailText g3' g4' post' ->
  spaces g3 = true -> spaces g4 = true ->
  spaces g3' = true -> spaces g4' = true ->
  g3 = g3' /\ g4 = g4' /\ post = post'.
Proof.
  unfold tailText. intros E H3 H4 H3' H4'.
  destruct (run_unique isWhiteSpace g3 g3' "t"%char "t"%char _ _
              (plusOf_forallb _ _ H3) (plusOf_forallb _ _ H3')
              eq_refl eq_refl E) as [-> [_ E1]].
  injection E1 as E1.
  destruct (run_unique isWhiteSpace g4 g4' "j"%char "j"%char _ _
              (plusOf_forallb _ _ H4) (plusOf_forallb _ _ H4')
              eq_refl eq_refl E1) as [-> [_ E2]].
  injection E2 as E2. auto.
Qed.

(** ** The subject group *)

Lemma subjectStage_some x r :
  subjectStage x = Some r ->
  exists X g3 g4 post,
    rest x = X ++ tailText g3 g4 post /\ subjectText X = true
    /\ spaces g3 = true /\ spaces g4 = true /\ isWordAt post = false
    /\ cap r = Some X
    /\ forall X' t', rest x = X' ++ t' -> X' <> [] ->
                     List.length X' < List.length X -> ~ TailOk t'.
Proof.
  unfold subjectStage, mGroup. intros H.
  destruct (mPlusLazy_some _ _ _ _ H) as [X [t [E [HX [Hk Hmin]]]]].
  destruct (tailM_some _ _ _ Hk) as [g3 [g4 [post [Et [H3 [H4 [Hb Hr]]]]]]].
  cbn [rest advance] in Et. subst t.
  exists X, g3, g4, post. repeat split; auto.
  - injection Hr as <-. cbn [cap advance seen].
    rewrite E, length_app, length_rev.
    replace (List.length X + List.length (seen x) - List.length (seen x))
      with (List.length X + 0) by lia.
    rewrite firstn_app_2. cbn. rewrite app_nil_r. reflexivity.
  - intros X' t' E' Hne L. specialize (Hmin X' t' E' Hne L).
    cbn beta in Hmin. apply tailM_none in Hmin. exact Hmin.
Qed.

Lemma subjectStage_none x :
  subjectStage x = None -> ~ ReadsFromSubject (rest x).
Proof.
  unfold subjectStage, mGroup. intros H [X [t [E [HX Ht]]]].
  pose proof (mPlusLazy_none _ _ _ H X t E HX) as N. cbn beta in N.
  apply tailM_none in N. exact (N Ht).
Qed.

(** ** The optional article and the white space after "want" *)

Lemma withArticle_some x r :
  mLit (lit "the") x (fun y => mPlusGreedy isWhiteSpace y subjectStage)
  = Some r ->
  exists g B,
    rest x = lit "the" ++ g ++ B /\ spaces g = true
    /\ subjectStage (advance (lit "the" ++ g) B x) = Some r
    /\ forall g' B', rest x = lit "the" ++ g' ++ B' -> spaces g' = true ->
                     List.length g < List.length g' ->
                     subjectStage (advance (lit "the" ++ g') B' x) = None.
Proof.
  intros H. destruct (mLit_some _ _ _ _ H) as [t E].
  rewrite (mLit_eq _ t x _ E) in H.
  destruct (mPlusGreedy_some _ _ _ _ H) as [g [B [Eg [Hg [Hk Hmax]]]]].
  cbn [rest advance] in Eg. subst t. exists g, B.
  rewrite advance_advance in Hk. repeat split; auto.
  intros g' B' E' Hg' L. rewrite E in E'. apply app_inv_head in E'.
  specialize (Hmax g' B' E' (plusOf_forallb _ _ Hg') L).
  rewrite advance_advance in Hmax. exact Hmax.
Qed.

Lemma withArticle_none x :
  mLit (lit "the") x (fun y => mPlusGreedy isWhiteSpace y subjectStage)
  = None ->
  forall g B, rest x = lit "the" ++ g ++ B -> spaces g = true ->
              subjectStage (advance (lit "the" ++ g) B x) = None.
Proof.
  intros H g B E Hg. rewrite (mLit_eq _ (g ++ B) x _ E) in H.
  pose proof (mPlusGreedy_none _ _ _ H g B eq_refl Hg) as N.
  rewrite advance_advance in N. exact N.
Qed.

Lemma articleStage_unfold x :
  articleStage x =
  orElse (mLit (lit "the") x
            (fun y => mPlusGreedy isWhiteSpace y subjectStage))
         (fun _ => subjectStage x).
Proof. reflexivity. Qed.

Lemma articleStage_none x :
  articleStage x = None -> ~ ReadsFromArticle (rest x).
Proof.
  rewrite articleStage_unfold. intros H [art [B [E [Ha HB]]]].
  destruct (mLit (lit "the") x _) eqn:W; [discriminate|]. cbn in H.
  destruct art as [g|]; cbn [articleText articleOk] in *.
  - rewrite <- app_assoc in E.
    pose proof (withArticle_none x W g B E Ha) as N.
    apply subjectStage_none in N. exact (N HB).
  - cbn in E. apply subjectStage_none in H. rewrite E in H. exact (H HB).
Qed.

Lemma gap2Stage_none x :
  gap2Stage x = None -> ~ ReadsFromGap2 (rest x).
Proof.
  unfold gap2Stage. intros H [g [A [E [Hg HA]]]].
  pose proof (mPlusGreedy_none _ _ _ H g A E Hg) as N.
  apply articleStage_none in N. exact (N HA).
Qed.

(** ** The start of the pattern and the search for it *)

Lemma wantToJump_stages x :
  wantToJump x (fun y => Some y) =
  mWordBoundary x (fun y =>
    mLit (lit "i") y (fun y =>
      mPlusGreedy isWhiteSpace y (fun y =>
        mLit (lit "want") y gap2Stage))).
Proof. reflexivity. Qed.

Lemma head_eq x g1 R :
  rest x = lit "i" ++ g1 ++ lit "want" ++ R -> spaces g1 = true ->
  wantToJump x (fun y => Some y) =
  if isWordAt (seen x) then None
  else gap2Stage (advance (lit "i" ++ g1 ++ lit "want") R x).
Proof.
  intros E H1. rewrite wantToJump_stages. unfold mWordBoundary.
  rewrite E. cbn [lit list_ascii_of_string app isWordAt].
  change (isWordChar "i") with true. rewrite xorb_true_r.
  destruct (isWordAt (seen x)); cbn [negb]; [reflexivity|].
  rewrite (mLit_eq (lit "i") (g1 ++ lit "want" ++ R) x _ E).
  rewrite (greedy_lit isWhiteSpace (lit "want") "w"%char (lit "ant") _
             (advance (lit "i") (g1 ++ lit "want" ++ R) x) g1 R
             eq_refl eq_refl eq_refl H1).
  rewrite advance_advance. reflexivity.
Qed.

Lemma head_some x r :
  wantToJump x (fun y => Some y) = Some r ->
  exists g1 R, rest x = lit "i" ++ g1 ++ lit "want" ++ R /\ spaces g1 = true.
Proof.
  rewrite wantToJump_stages. unfold mWordBoundary.
  destruct (xorb _ _); [|discriminate]. intros H.
  destruct (mLit_some _ _ _ _ H) as [t E].
  rewrite (mLit_eq _ t x _ E) in H.
  destruct (greedy_lit_some isWhiteSpace (lit "want") "w"%char (lit "ant")
              _ _ r eq_refl eq_refl H) as [g1 [R [E1 H1]]].
  cbn [rest advance] in E1. subst t. exists g1, R. auto.
Qed.

Lemma head_none x :
  wantToJump x (fun y => Some y) = None ->
  ~ ReadsFromStart (seen x) (rest x).
Proof.
  intros H [Hb [g1 [R [E [H1 HR]]]]].
  rewrite (head_eq x g1 R E H1), Hb in H.
  apply gap2Stage_none in H. exact (H HR).
Qed.

Lemma search_none m : forall s sn,
  search m sn s = None ->
  forall pre t, s = pre ++ t ->
  m (mkState (rev pre ++ sn) t None) (fun y => Some y) = None.
Proof.
  induction s as [|c s IH]; intros sn H pre t E; cbn [search] in H;
    destruct (m (mkState sn _ None) _) eqn:M; try discriminate; cbn in H.
  - destruct pre; [|discriminate]. cbn in E. subst t. exact M.
  - destruct pre as [|c' pre].
    + cbn in E. subst t. exact M.
    + cbn in E. injection E as <- ->. cbn. rewrite <- app_assoc.
      apply (IH _ H pre t eq_refl).
Qed.

Lemma search_some m : forall s sn r,
  search m sn s = Some r ->
  exists pre t,
    s = pre ++ t
    /\ m (mkState (rev pre ++ sn) t None) (fun y => Some y) = Some r
    /\ forall pre' t', s = pre' ++ t' ->
                       List.length pre' < List.length pre ->
                       m (mkState (rev pre' ++ sn) t' None) (fun y => Some y)
                       = None.
Proof.
  induction s as [|c s IH]; intros sn r H; cbn [search] in H;
    destruct (m (mkState sn _ None) _) as [r'|] eqn:M; cbn in H;
    try discriminate.
  - injection H as <-. exists [], []. repeat split; auto.
    intros pre' t' _ L. cbn in L. lia.
  - injection H as <-. exists [], (c :: s). repeat split; auto.
    intros pre' t' _ L. cbn in L. lia.
  - destruct (IH _ _ H) as [pre [t [E [Hm Hmin]]]].
    exists (c :: pre), t. subst s. repeat split.
    + cbn. rewrite <- app_assoc. exact Hm.
    + intros pre' t' E' L. destruct pre' as [|c' pre'].
      * cbn in E'. subst t'. exact M.
      * cbn in E'. injection E' as <- E'. cbn. rewrite <- app_assoc.
        apply Hmin; auto. cbn in L. lia.
Qed.

(** ** Well-formed readings are what the stages accept *)

Lemma okFromSubject_reads d :
  okFromSubject d = true -> ReadsFromSubject (fromSubject d).
Proof.
  unfold okFromSubject. rewrite !andb_true_iff, negb_true_iff.
  intros [[[Hx H3] H4] Hb].
  exists (subject d), (tailText (gap3 d) (gap4 d) (after d)).
  repeat split; auto. exists (gap3 d), (gap4 d), (after d). auto.
Qed.

Lemma okFromArticle_reads d :
  okFromArticle d = true -> ReadsFromArticle (fromArticle d).
Proof.
  unfold okFromArticle. rewrite andb_true_iff. intros [Ha Hs].
  exists (article d), (fromSubject d). repeat split; auto.
  apply okFromSubject_reads, Hs.
Qed.

Lemma okFromGap2_reads d :
  okFromGap2 d = true -> ReadsFromGap2 (fromGap2 d).
Proof.
  unfold okFromGap2. rewrite andb_true_iff. intros [Hg Ha].
  exists (gap2 d), (fromArticle d). repeat split; auto.
  apply okFromArticle_reads, Ha.
Qed.

Lemma wellFormed_reads d :
  wellFormed d = true -> ReadsFromStart (rev (before d)) (fromStart d).
Proof.
  unfold wellFormed, okFromStart.
  rewrite !andb_true_iff, negb_true_iff. intros [Hb [H1 H2]].
  split; [exact Hb|]. exists (gap1 d), (fromGap2 d). repeat split; auto.
  apply okFromGap2_reads, H2.
Qed.

(** ** What each stage settles on *)

Lemma subjectStage_first x r :
  subjectStage x = Some r ->
  exists X g3 g4 post,
    rest x = X ++ tailText g3 g4 post
    /\ subjectText X = true /\ spaces g3 = true /\ spaces g4 = true
    /\ isWordAt post = false /\ cap r = Some X
    /\ forall d', rest x = fromSubject d' -> okFromSubject d' = true ->
                  List.length X <= List.length (subject d').
Proof.
  intros H.
  destruct (subjectStage_some x r H)
    as [X [g3 [g4 [post [E [HX [H3 [H4 [Hb [Hc Hmin]]]]]]]]]].
  exists X, g3, g4, post. repeat split; auto.
  intros d' E' Hd'.
  destruct (Nat.le_gt_cases (List.length X) (List.length (subject d')))
    as [L|L]; [exact L | exfalso].
  pose proof Hd' as Hd''. unfold okFromSubject in Hd''.
  rewrite !andb_true_iff, negb_true_iff in Hd''.
  destruct Hd'' as [[[Hx' H3'] H4'] Hb'].
  apply (Hmin (subject d') (tailText (gap3 d') (gap4 d') (after d')) E'
           (plusOf_nonempty _ _ Hx') L).
  exists (gap3 d'), (gap4 d'), (after d'). auto.
Qed.

Lemma articleStage_some x r :
  articleStage x = Some r ->
  (exists g B,
      rest x = lit "the" ++ g ++ B /\ spaces g = true
      /\ subjectStage (advance (lit "the" ++ g) B x) = Some r
      /\ forall g' B', rest x = lit "the" ++ g' ++ B' -> spaces g' = true ->
                       List.length g < List.length g' ->
                       subjectStage (advance (lit "the" ++ g') B' x) = None)
  \/ ((forall g B, rest x = lit "the" ++ g ++ B -> spaces g = true ->
                   subjectStage (advance (lit "the" ++ g) B x) = None)
      /\ subjectStage x = Some r).
Proof.
  rewrite articleStage_unfold.
  destruct (mLit (lit "the") x _) as [r'|] eqn:W; cbn [orElse]; intros H.
  - injection H as <-. left. apply withArticle_some, W.
  - right. split; [apply withArticle_none, W | exact H].
Qed.

Lemma articleStage_first x r :
  articleStage x = Some r ->
  exists art X g3 g4 post,
    rest x = articleText art ++ X ++ tailText g3 g4 post
    /\ articleOk art = true
    /\ subjectText X = true /\ spaces g3 = true /\ spaces g4 = true
    /\ isWordAt post = false /\ cap r = Some X
    /\ forall d', rest x = fromArticle d' -> okFromArticle d' = true ->
                  articleFirst art X (article d') (subject d').
Proof.
  intros H. destruct (articleStage_some x r H)
    as [[g [B [E [Hg [Hs Hmax]]]]] | [Hnone Hs]].
  - destruct (subjectStage_first _ _ Hs)
      as [X [g3 [g4 [post [EB [HX [H3 [H4 [Hb [Hc Hmin]]]]]]]]]].
    cbn [rest advance] in EB. subst B.
    exists (Some g), X, g3, g4, post. cbn [articleText articleOk].
    rewrite <- app_assoc. repeat split; auto.
    intros d' E' Hd'. unfold okFromArticle in Hd'.
    apply andb_true_iff in Hd'. destruct Hd' as [Ha' Hs'].
    unfold fromArticle in E'.
    destruct (article d') as [g'|] eqn:A'; cbn [articleFirst]; [|exact I].
    cbn [articleText articleOk] in *. rewrite <- app_assoc in E'.
    destruct (Nat.lt_trichotomy (List.length g) (List.length g'))
      as [L|[L|L]].
    + exfalso. pose proof (Hmax g' (fromSubject d') E' Ha' L) as N.
      apply subjectStage_none in N. apply N.
      apply okFromSubject_reads, Hs'.
    + right. split; [exact L|]. rewrite E in E'. apply app_inv_head in E'.
      destruct (app_same_length _ _ _ _ _ E' L) as [<- EB].
      apply Hmin; [exact EB | exact Hs'].
    + left. exact L.
  - destruct (subjectStage_first _ _ Hs)
      as [X [g3 [g4 [post [EB [HX [H3 [H4 [Hb [Hc Hmin]]]]]]]]]].
    exists None, X, g3, g4, post. cbn [articleText articleOk app].
    repeat split; auto.
    intros d' E' Hd'. unfold okFromArticle in Hd'.
    apply andb_true_iff in Hd'. destruct Hd' as [Ha' Hs'].
    unfold fromArticle in E'.
    destruct (article d') as [g'|] eqn:A'; cbn [articleFirst].
    + cbn [articleText articleOk] in *. rewrite <- app_assoc in E'.
      pose proof (Hnone g' (fromSubject d') E' Ha') as N.
      apply subjectStage_none in N. apply N.
      apply okFromSubject_reads, Hs'.
    + cbn [articleText app] in E'. apply Hmin; assumption.
Qed.

Lemma gap2Stage_first x r :
  gap2Stage x = Some r ->
  exists g2 art X g3 g4 post,
    rest x = g2 ++ articleText art ++ X ++ tailText g3 g4 post
    /\ spaces g2 = true /\ articleOk art = true
    /\ subjectText X = true /\ spaces g3 = true /\ spaces g4 = true
    /\ isWordAt post = false /\ cap r = Some X
    /\ forall d', rest x = fromGap2 d' -> okFromGap2 d' = true ->
                  gap2First g2 art X (gap2 d') (article d') (subject d').
Proof.
  unfold gap2Stage. intros H.
  destruct (mPlusGreedy_some _ _ _ _ H) as [g2 [A [E [Hg [Hk Hmax]]]]].
  destruct (articleStage_first _ _ Hk)
    as [art [X [g3 [g4 [post [EA [Ha [HX [H3 [H4 [Hb [Hc Hfirst]]]]]]]]]]]].
  cbn [rest advance] in EA. subst A.
  exists g2, art, X, g3, g4, post. repeat split; auto.
  intros d' E' Hd'. unfold okFromGap2 in Hd'.
  apply andb_true_iff in Hd'. destruct Hd' as [Hg' Ha'].
  unfold fromGap2 in E'. unfold gap2First.
  destruct (Nat.lt_trichotomy (List.length g2) (List.length (gap2 d')))
    as [L|[L|L]].
  - exfalso.
    pose proof (Hmax (gap2 d') (fromArticle d') E'
                  (plusOf_forallb _ _ Hg') L) as N.
    apply articleStage_none in N. apply N.
    apply okFromArticle_reads, Ha'.
  - right. split; [exact L|]. rewrite E in E'.
    destruct (app_same_length _ _ _ _ _ E' L) as [_ EA].
    apply Hfirst; [exact EA | exact Ha'].
  - left. exact L.
Qed.

Lemma wantToJump_first x r :
  wantToJump x (fun y => Some y) = Some r ->
  exists g1 g2 art X g3 g4 post,
    rest x = lit "i" ++ g1 ++ lit "want" ++ g2 ++ articleText art ++ X
             ++ tailText g3 g4 post
    /\ isWordAt (seen x) = false
    /\ spaces g1 = true /\ spaces g2 = true /\ articleOk art = true
    /\ subjectText X = true /\ spaces g3 = true /\ spaces g4 = true
    /\ isWordAt post = false /\ cap r = Some X
    /\ forall d', rest x = fromStart d' -> okFromStart d' = true ->
                  gap2First g2 art X (gap2 d') (article d') (subject d').
Proof.
  intros H. destruct (head_some x r H) as [g1 [R [E H1]]].
  rewrite (head_eq x g1 R E H1) in H.
  destruct (isWordAt (seen x)) eqn:Hb; [discriminate|].
  destruct (gap2Stage_first _ _ H)
    as [g2 [art [X [g3 [g4 [post
         [ER [H2 [Ha [HX [H3 [H4 [Hp [Hc Hfirst]]]]]]]]]]]]]].
  cbn [rest advance] in ER. subst R.
  exists g1, g2, art, X, g3, g4, post. repeat split; auto.
  intros d' E' Hd'. unfold okFromStart in Hd'.
  apply andb_true_iff in Hd'. destruct Hd' as [H1' H2'].
  unfold fromStart in E'. rewrite E in E'. apply app_inv_head in E'.
  destruct (run_unique isWhiteSpace g1 (gap1 d') "w"%char "w"%char _ _
              (plusOf_forallb _ _ H1) (plusOf_forallb _ _ H1')
              eq_refl eq_refl E') as [_ [_ ER]].
  apply (app_inv_head (lit "ant")) in ER.
  apply Hfirst; [exact ER | exact H2'].
Qed.

(** ** The decision extractor *)

(** C1: the extractor never throws.  When the lower-cased, trimmed
    utterance reads as: a word boundary, "i", white space, "want", white
    space, optionally "the" and white space, a subject, white space, "to",
    white space, "jump", a word boundary, the extractor returns the trimmed
    subject of the reading the matcher tries first (the earliest start,
    then the most white space after "want", then with "the", then the most
    white space after "the", then the shortest subject); when it reads so
    in no way, the extractor returns null. *)
Theorem extract_returns_first_reading (utterance : str) :
  let lower := trim (toLowerCase utterance) in
  (exists d,
      chosenReading lower d
      /\ extractPersonFromDecision utterance
         = Return (Some (trim (subject d))))
  \/ ((forall d, wellFormed d = true -> readingText d <> lower)
      /\ extractPersonFromDecision utterance = Return None).
Proof.
  cbv zeta. unfold extractPersonFromDecision, exec.
  set (lower := trim (toLowerCase utterance)).
  destruct (search wantToJump [] lower) as [r|] eqn:S.
  - left. destruct (search_some _ _ _ _ S) as [pre [t [E [Hm Hmin]]]].
    destruct (wantToJump_first _ _ Hm)
      as [g1 [g2 [art [X [g3 [g4 [post
           [Et [Hb [H1 [H2 [Ha [HX [H3 [H4 [Hp [Hc Hfirst]]]]]]]]]]]]]]]]].
    cbn [rest seen] in Et, Hb. rewrite app_nil_r in Hb.
    exists (mkReading pre g1 g2 art X g3 g4 post).
    rewrite Hc. split; [|reflexivity]. split; [|split].
    + unfold wellFormed, okFromStart, okFromGap2, okFromArticle,
        okFromSubject. cbn [before gap1 gap2 article subject gap3 gap4 after].
      rewrite Hb, H1, H2, Ha, HX, H3, H4, Hp. reflexivity.
    + unfold readingText, fromStart, fromGap2, fromArticle, fromSubject.
      cbn [before gap1 gap2 article subject gap3 gap4 after].
      rewrite E, Et. reflexivity.
    + intros d' Hd' E'. unfold triedFirst.
      cbn [before gap2 article subject].
      pose proof (wellFormed_reads d' Hd') as R'.
      destruct (Nat.lt_trichotomy (List.length pre) (List.length (before d')))
        as [L|[L|L]].
      * left. exact L.
      * right. split; [exact L|]. unfold readingText in E'.
        rewrite E in E'. symmetry in E'.
        destruct (app_same_length _ _ _ _ _ E' L) as [_ Et'].
        apply Hfirst; [exact Et'|].
        unfold wellFormed in Hd'. apply andb_true_iff in Hd'. apply Hd'.
      * exfalso. unfold readingText in E'. symmetry in E'.
        pose proof (Hmin (before d') (fromStart d') E' L) as N.
        apply head_none in N. cbn [seen rest] in N.
        rewrite app_nil_r in N. exact (N R').
  - right. split; [|reflexivity].
    intros d Hd E. unfold readingText in E. symmetry in E.
    pose proof (search_none _ _ _ S (before d) (fromStart d) E) as N.
    apply head_none in N. cbn [seen rest] in N. rewrite app_nil_r in N.
    exact (N (wellFormed_reads d Hd)).
Qed.

Example extract_teacher :
  extractPersonFromDecision (lit "I want the Teacher to jump")
  = Return (Some (lit "teacher")).
Proof. vm_compute. reflexivity. Qed.

Example extract_no_match :
  extractPersonFromDecision (lit "I think the pilot should stay")
  = Return None.
Proof. vm_compute. reflexivity. Qed.

Example extract_first_shortest :
  extractPersonFromDecision
    (lit "  well I  WANT the old pilot to jump to jump, i want x to jump ")
  = Return (Some (lit "old pilot")).
Proof. vm_compute. reflexivity. Qed.

Example extract_the_alone :
  extractPersonFromDecision (lit "i want the to jump")
  = Return (Some (lit "the")).
Proof. vm_compute. reflexivity. Qed.

Example extract_blank_subject :
  extractPersonFromDecision (lit "i want   to jump") = Return (Some []).
Proof. vm_compute. reflexivity. Qed.

Example extract_needs_boundary :
  extractPersonFromDecision (lit "hi want x to jump") = Return None
  /\ extractPersonFromDecision (lit "i want x to jumping") = Return None.
Proof. split; vm_compute; reflexivity. Qed.

Example selector_odds_of_nine :
  timesSelected Manipulation_SpeakingWithBuffer_Condition3 3 = 3
  /\ timesSelected Manipulation_SpeakingWithLaughter_Condition2 3 = 4
  /\ timesSelected Manipulation_SpeakingWithPause_Condition1 3 = 2.
Proof. repeat split. Qed.

Lemma manipulation_speech_not_recorded_witness :
  invoke (mkSnapshot Manipulation_Clarify initialContext)
  = Return (Some (fhSpeak clarifyText false))
  /\ step (mkInput 0 0 error) (mkSnapshot Manipulation_Clarify initialContext)
     = Some (mkSnapshot Manipulation_Listening initialContext).
Proof.
  pose proof (manipulation_speech_not_recorded Manipulation_Clarify
                initialContext clarifyText (mkInput 0 0 error) eq_refl)
    as [H1 [H2 _]].
  exact (conj H1 H2).
Defined.

(** ** More on the decision extractor *)

(** What [exec] finds for the pattern, in terms of readings. *)
Lemma exec_wantToJump (s : str) :
  match exec wantToJump s with
  | Some r => exists d, chosenReading s d /\ cap r = Some (subject d)
  | None => forall d, wellFormed d = true -> readingText d <> s
  end.
Proof.
  unfold exec. destruct (search wantToJump [] s) as [r|] eqn:S.
  - destruct (search_some _ _ _ _ S) as [pre [t [E [Hm Hmin]]]].
    destruct (wantToJump_first _ _ Hm)
      as [g1 [g2 [art [X [g3 [g4 [post
           [Et [Hb [H1 [H2 [Ha [HX [H3 [H4 [Hp [Hc Hfirst]]]]]]]]]]]]]]]]].
    cbn [rest seen] in Et, Hb. rewrite app_nil_r in Hb.
    exists (mkReading pre g1 g2 art X g3 g4 post).
    split; [|exact Hc]. split; [|split].
    + unfold wellFormed, okFromStart, okFromGap2, okFromArticle,
        okFromSubject. cbn [before gap1 gap2 article subject gap3 gap4 after].
      rewrite Hb, H1, H2, Ha, HX, H3, H4, Hp. reflexivity.
    + unfold readingText, fromStart, fromGap2, fromArticle, fromSubject.
      cbn [before gap1 gap2 article subject gap3 gap4 after].
      rewrite E, Et. reflexivity.
    + intros d' Hd' E'. unfold triedFirst.
      cbn [before gap2 article subject].
      destruct (Nat.lt_trichotomy (List.length pre) (List.length (before d')))
        as [L|[L|L]].
      * left. exact L.
      * right. split; [exact L|]. unfold readingText in E'.
        rewrite E in E'. symmetry in E'.
        destruct (app_same_length _ _ _ _ _ E' L) as [_ Et'].
        apply Hfirst; [exact Et'|].
        unfold wellFormed in Hd'. apply andb_true_iff in Hd'. apply Hd'.
      * exfalso. unfold readingText in E'. symmetry in E'.
        pose proof (Hmin (before d') (fromStart d') E' L) as N.
        apply head_none in N. cbn [seen rest] in N.
        rewrite app_nil_r in N. exact (N (wellFormed_reads d' Hd')).
  - intros d Hd E. unfold readingText in E. symmetry in E.
    pose proof (search_none _ _ _ S (before d) (fromStart d) E) as N.
    apply head_none in N. cbn [seen rest] in N. rewrite app_nil_r in N.
    exact (N (wellFormed_reads d Hd)).
Qed.

Lemma extract_cases (utterance : str) :
  (exists d,
      chosenReading (trim (toLowerCase utterance)) d
      /\ extractPersonFromDecision utterance
         = Return (Some (trim (subject d))))
  \/ extractPersonFromDecision utterance = Return None.
Proof.
  unfold extractPersonFromDecision.
  pose proof (exec_wantToJump (trim (toLowerCase utterance))) as H.
  destruct (exec wantToJump (trim (toLowerCase utterance))) as [r|].
  - destruct H as [d [Hd Hc]]. left. exists d. rewrite Hc. auto.
  - right. reflexivity.
Qed.

Lemma extract_never_throws (utterance : str) :
  extractPersonFromDecision utterance <> Throw.
Proof.
  destruct (extract_cases utterance) as [[d [_ H]] | H]; rewrite H;
    discriminate.
Qed.

(** ** The machine as a whole *)

(** X1: When the running actor rejects or resolves with a text, the machine
    has a transition in every state but Done, where it has none.  A guard
    throws on one kind of result only: a listen call that resolves with a
    value that is not a text makes the first guard of Loop.Listening, and
    that of Manipulation.Listening, throw; on a text neither does. *)
Theorem step_defined_until_Done :
  (forall i s, step i s = None <-> value s = Done)
  /\ (forall output,
        Loop_Listening_guard output = Throw <-> output = NotAString)
  /\ (forall output,
        Manipulation_Listening_guard output = Throw <-> output = NotAString).
Proof.
  split; [|split].
  - intros i [v c]. unfold step. cbn [value context]. split.
    + destruct v, (event i) as [o|]; try discriminate; try reflexivity.
      unfold Loop_Listening_onDone.
      pose proof (extract_never_throws o) as T.
      destruct (extractPersonFromDecision o) as [[p|]|];
        [discriminate | discriminate | congruence].
    + intros ->. destruct (event i); reflexivity.
  - intros [u|]; cbn [Loop_Listening_guard].
    + pose proof (extract_never_throws u) as T.
      destruct (extractPersonFromDecision u) as [[p|]|];
        split; intros H; try discriminate; congruence.
    + split; reflexivity.
  - intros [u|]; cbn [Manipulation_Listening_guard]; split; intros H;
      try discriminate; reflexivity.
Qed.

(** X2: extractedPerson is written by the decision branch of Loop.Listening
    and by nothing else: when Loop.Listening hears an utterance in which
    the extractor finds a person, the step stores that person; every other
    transition leaves extractedPerson as it was. *)
Theorem extractedPerson_written_on_decision i s s' :
  step i s = Some s' ->
  extractedPerson (context s')
  = match value s, event i with
    | Loop_Listening, done utterance =>
        match extractPersonFromDecision utterance with
        | Return (Some person) => person
        | _ => extractedPerson (context s)
        end
    | _, _ => extractedPerson (context s)
    end.
Proof.
  destruct s as [v c]. unfold step. cbn [value context].
  destruct v, (event i) as [o|] eqn:Ev; intros H; try discriminate;
    try (injection H as <-; reflexivity).
  - unfold Loop_Listening_onDone in H.
    destruct (extractPersonFromDecision o) as [[p|]|] eqn:X;
      try discriminate; injection H as <-; reflexivity.
  - injection H as <-. unfold Manipulation_Listening_onDone.
    destruct (affirmative o); [|destruct (negative o)]; reflexivity.
Qed.

Lemma pilot_step :
  step (mkInput 0 0 (done (lit "I want the pilot to jump")))
       (mkSnapshot Loop_Listening greetedContext)
  = Some (mkSnapshot Manipulation_SpeakingWithBuffer_Condition3
            pilotContext).
Proof. vm_compute. reflexivity. Qed.

Lemma extractedPerson_written_on_decision_witness :
  extractedPerson pilotContext
  = match extractPersonFromDecision (lit "I want the pilot to jump") with
    | Return (Some person) => person
    | _ => extractedPerson greetedContext
    end
  /\ extractedPerson pilotContext = lit "pilot"
  /\ extractedPerson greetedContext = [].
Proof.
  split.
  - exact (extractedPerson_written_on_decision
             (mkInput 0 0 (done (lit "I want the pilot to jump")))
             (mkSnapshot Loop_Listening greetedContext)
             (mkSnapshot Manipulation_SpeakingWithBuffer_Condition3
                pilotContext)
             pilot_step).
  - split; reflexivity.
Defined.

(** ** The shape of the transcript *)

Lemma lastMessage_snoc ms m : lastMessage (ms ++ [m]) = Some m.
Proof. unfold lastMessage. rewrite rev_app_distr. reflexivity. Qed.

Lemma assistantsApart_snoc ms l m :
  assistantsApart (ms ++ [l]) = true ->
  isAssistant l && isAssistant m = false ->
  assistantsApart ((ms ++ [l]) ++ [m]) = true.
Proof.
  intros H N. induction ms as [|a ms IH].
  - cbn. rewrite N. reflexivity.
  - destruct ms as [|b ms].
    + cbn in *. rewrite N. rewrite andb_true_r in H. rewrite H. reflexivity.
    + cbn [app assistantsApart] in *.
      apply andb_true_iff in H. destruct H as [H1 H2].
      rewrite H1. cbn [andb]. apply IH. exact H2.
Qed.

(** Where a step leaves the last message: a user message for the states
    that wait for the assistant's turn, an assistant message for the
    others, and no two assistant messages in a row. *)
Lemma step_shape i s s' :
  step i s = Some s' ->
  (exists earlier m,
      messages (context s) = earlier ++ [m]
      /\ assistantsApart (messages (context s)) = true
      /\ (value s <> Done ->
          role m = if awaitsAssistant (value s) then user else assistant)) ->
  exists earlier m,
    messages (context s') = earlier ++ [m]
    /\ assistantsApart (messages (context s')) = true
    /\ (value s' <> Done ->
        role m = if awaitsAssistant (value s') then user else assistant).
Proof.
  destruct s as [v c]. unfold step. cbn [value context].
  intros H [earlier [m [E [A R]]]].
  assert (D : awaitsAssistant (DetermineTheManipulationState i) = true).
  { unfold DetermineTheManipulationState.
    destruct (isSpeakingWithBuffer (random1 i)),
      (isSpeakingWithLaughter (random2 i)); reflexivity. }
  assert (Keep : forall v',
             (v <> Done -> awaitsAssistant v' = awaitsAssistant v) ->
             v <> Done ->
             exists earlier0 m0,
               messages c = earlier0 ++ [m0]
               /\ assistantsApart (messages c) = true
               /\ (v' <> Done ->
                   role m0 = if awaitsAssistant v' then user else assistant)).
  { intros v' Hv Hd. exists earlier, m. repeat split; auto.
    intros _. rewrite (Hv Hd). apply R, Hd. }
  assert (Push : forall v' r t,
             (isAssistant m && isAssistant (mkMessage r t) = false) ->
             (v' <> Done ->
              r = if awaitsAssistant v' then user else assistant) ->
             exists earlier0 m0,
               messages c ++ [mkMessage r t] = earlier0 ++ [m0]
               /\ assistantsApart (messages c ++ [mkMessage r t]) = true
               /\ (v' <> Done ->
                   role m0 = if awaitsAssistant v' then user else assistant)).
  { intros v' r t N Hr. exists (messages c), (mkMessage r t).
    repeat split; auto.
    rewrite E. apply assistantsApart_snoc; [rewrite <- E; exact A | exact N]. }
  destruct v, (event i) as [o|] eqn:Ev; try discriminate;
    try (injection H as <-; cbn [value context messages withMessages];
         apply Keep; [reflexivity | discriminate]).
  - (* Loop.Listening, an utterance *)
    unfold Loop_Listening_onDone in H.
    destruct (extractPersonFromDecision o) as [[p|]|]; try discriminate;
      injection H as <-; cbn [value context messages];
      unfold pushMessage; apply Push.
    + unfold isAssistant. cbn [role]. apply andb_false_r.
    + intros _. rewrite D. reflexivity.
    + unfold isAssistant. cbn [role]. apply andb_false_r.
    + reflexivity.
  - (* Loop.ProcessingResponse, resolved *)
    injection H as <-. cbn [value context messages withMessages].
    unfold pushMessage. apply Push; [|reflexivity].
    unfold isAssistant. rewrite (R ltac:(discriminate)). reflexivity.
  - (* Loop.ProcessingResponse, rejected *)
    injection H as <-. cbn [value context messages withMessages].
    unfold pushMessage. apply Push; [|reflexivity].
    unfold isAssistant. rewrite (R ltac:(discriminate)). reflexivity.
  - (* Manipulation.Listening, an answer *)
    injection H as <-. unfold Manipulation_Listening_onDone.
    destruct (affirmative o); [|destruct (negative o)];
      cbn [value context messages].
    + apply Keep; [reflexivity | discriminate].
    + unfold pushMessage. apply Push; [|reflexivity].
      unfold isAssistant. cbn [role]. apply andb_false_r.
    + apply Keep; [reflexivity | discriminate].
  - (* Manipulation.Listening, rejected *)
    injection H as <-. cbn [value context].
    apply Keep; [intros _; exact D | discriminate].
  - (* End, spoken *)
    injection H as <-. cbn [value context messages withMessages].
    unfold pushMessage. apply Push; [|congruence].
    unfold isAssistant. rewrite (R ltac:(discriminate)). reflexivity.
  - (* End, failed *)
    injection H as <-. cbn [value context].
    exists earlier, m. repeat split; auto. congruence.
Qed.

Lemma reachable_shape s :
  reachable s ->
  exists earlier m,
    messages (context s) = earlier ++ [m]
    /\ assistantsApart (messages (context s)) = true
    /\ (value s <> Done ->
        role m = if awaitsAssistant (value s) then user else assistant).
Proof.
  induction 1 as [|s i s' _ IH Hs].
  - exists [mkMessage system systemPrompt], (mkMessage assistant greeting).
    repeat split.
  - exact (step_shape i s s' Hs IH).
Qed.

(** X3: In every reachable snapshot the transcript is not empty, so the input
    of the actor to invoke is computed without a throw; and what
    Loop.Speaking asks the Voice Service to say is the last message of the
    transcript, which is an assistant message. *)
Theorem Loop_Speaking_says_assistant s :
  reachable s ->
  (exists todo, invoke s = Return todo)
  /\ (value s = Loop_Speaking ->
      exists earlier m,
        messages (context s) = earlier ++ [m]
        /\ role m = assistant
        /\ invoke s
           = Return (Some (fhSpeak (content m)
                             (isFirstMessage (context s))))).
Proof.
  intros Hr. destruct (reachable_shape s Hr) as [earlier [m [E [_ R]]]].
  assert (I : value s = Loop_Speaking ->
              invoke s = Return (Some (fhSpeak (content m)
                                         (isFirstMessage (context s))))).
  { intros V. unfold invoke. rewrite V, E, rev_app_distr. reflexivity. }
  split.
  - destruct (value s) eqn:V; try (eexists; unfold invoke; rewrite V;
                                   reflexivity).
    eexists. apply I. reflexivity.
  - intros V. exists earlier, m. repeat split; auto.
    rewrite V in R. apply R. discriminate.
Qed.

Lemma Loop_Speaking_says_assistant_witness :
  exists todo, invoke (mkSnapshot Loop_Speaking initialContext) = Return todo.
Proof.
  exact (proj1 (Loop_Speaking_says_assistant
                  (mkSnapshot Loop_Speaking initialContext)
                  (reachable_step initial (mkInput 0 0 error) _
                     reachable_initial eq_refl))).
Defined.

(** X4: In every reachable transcript no assistant message directly follows
    another assistant message. *)
Theorem transcript_assistants_apart s :
  reachable s -> assistantsApart (messages (context s)) = true.
Proof.
  intros Hr. destruct (reachable_shape s Hr) as [_ [_ [_ [A _]]]]. exact A.
Qed.

Lemma transcript_assistants_apart_witness :
  assistantsApart (messages (context (mkSnapshot Loop_Speaking
                                        answeredContext))) = true
  /\ map role (messages answeredContext)
     = [system; assistant; user; assistant].
Proof.
  split.
  - exact (transcript_assistants_apart
             (mkSnapshot Loop_Speaking answeredContext) answered_reachable).
  - reflexivity.
Defined.

(** ** The decision on record *)

Lemma lastUserMessage_user ms u :
  lastUserMessage (ms ++ [mkMessage user u]) = Some (mkMessage user u).
Proof.
  unfold lastUserMessage. rewrite filter_app, rev_app_distr. reflexivity.
Qed.

Lemma lastUserMessage_assistant ms t :
  lastUserMessage (ms ++ [mkMessage assistant t]) = lastUserMessage ms.
Proof.
  unfold lastUserMessage. rewrite filter_app. cbn. rewrite app_nil_r.
  reflexivity.
Qed.

Lemma hasDecision_lastUserMessage (ctx : DMContext) :
  hasDecision ctx =
  match lastUserMessage (messages ctx) with
  | None => Return false
  | Some m =>
      match extractPersonFromDecision (content m) with
      | Return (Some _) => Return true
      | Return None => Return false
      | Throw => Throw
      end
  end.
Proof.
  unfold hasDecision, lastUserMessage.
  destruct (rev (filter isUser (messages ctx))) as [|m l]; [reflexivity|].
  destruct (extractPersonFromDecision (content m)) as [[p|]|]; reflexivity.
Qed.

Lemma step_decision_on_record i s s' :
  step i s = Some s' ->
  (afterDecision (value s) = true ->
   exists m, lastUserMessage (messages (context s)) = Some m
             /\ extractPersonFromDecision (content m)
                = Return (Some (extractedPerson (context s)))) ->
  afterDecision (value s') = true ->
  exists m, lastUserMessage (messages (context s')) = Some m
            /\ extractPersonFromDecision (content m)
               = Return (Some (extractedPerson (context s'))).
Proof.
  destruct s as [v c]. unfold step. cbn [value context].
  assert (D : afterDecision (DetermineTheManipulationState i) = true).
  { unfold DetermineTheManipulationState.
    destruct (isSpeakingWithBuffer (random1 i)),
      (isSpeakingWithLaughter (random2 i)); reflexivity. }
  destruct v, (event i) as [o|] eqn:Ev; intros H J A; try discriminate;
    try (injection H as <-; cbn [value] in A; discriminate A);
    try (injection H as <-; cbn [value context] in *; apply J; reflexivity).
  - unfold Loop_Listening_onDone in H.
    destruct (extractPersonFromDecision o) as [[p|]|] eqn:X;
      try discriminate; injection H as <-.
    + cbn [context messages extractedPerson]. unfold pushMessage.
      exists (mkMessage user o). rewrite lastUserMessage_user. auto.
    + cbn [value] in A. discriminate A.
  - injection H as <-. revert A. unfold Manipulation_Listening_onDone.
    destruct (affirmative o); [|destruct (negative o)];
      cbn [value context messages extractedPerson]; intros A;
      try discriminate A; apply J; reflexivity.
  - injection H as <-. cbn [context messages withMessages extractedPerson].
    unfold pushMessage. rewrite lastUserMessage_assistant.
    apply J. reflexivity.
Qed.

(** X5: In every reachable snapshot of the manipulation, of End and of Done, a
    decision is on record: the last user message of the transcript is an
    utterance in which the extractor finds a person, extractedPerson is
    that person, and the guard hasDecision holds. *)
Theorem decision_on_record s :
  reachable s -> afterDecision (value s) = true ->
  hasDecision (context s) = Return true
  /\ exists m,
       lastUserMessage (messages (context s)) = Some m
       /\ role m = user
       /\ extractPersonFromDecision (content m)
          = Return (Some (extractedPerson (context s))).
Proof.
  intros Hr A.
  assert (J : exists m,
             lastUserMessage (messages (context s)) = Some m
             /\ extractPersonFromDecision (content m)
                = Return (Some (extractedPerson (context s)))).
  { revert A. induction Hr as [|s i s' _ IH Hs]; intros A.
    - discriminate A.
    - exact (step_decision_on_record i s s' Hs IH A). }
  destruct J as [m [L X]]. split.
  - rewrite hasDecision_lastUserMessage, L, X. reflexivity.
  - exists m. repeat split; auto.
    unfold lastUserMessage in L.
    destruct (rev (filter isUser (messages (context s)))) as [|m' l] eqn:R;
      [discriminate|]. injection L as ->.
    assert (I : In m (filter isUser (messages (context s)))).
    { apply in_rev. rewrite R. left. reflexivity. }
    apply filter_In in I. destruct I as [_ U]. unfold isUser in U.
    destruct (role m); (reflexivity || discriminate).
Qed.

(** X6: The guard hasDecision never throws, and it fails on a transcript
    without a user message. *)
Theorem hasDecision_total (ctx : DMContext) :
  (exists b, hasDecision ctx = Return b)
  /\ (lastUserMessage (messages ctx) = None ->
      hasDecision ctx = Return false).
Proof.
  rewrite hasDecision_lastUserMessage.
  destruct (lastUserMessage (messages ctx)) as [m|].
  - split; [|discriminate].
    pose proof (extract_never_throws (content m)) as T.
    destruct (extractPersonFromDecision (content m)) as [[p|]|];
      [eexists; reflexivity | eexists; reflexivity | congruence].
  - split; [eexists; reflexivity | reflexivity].
Qed.

Lemma pilot_reachable :
  reachable (mkSnapshot Manipulation_SpeakingWithBuffer_Condition3
               pilotContext).
Proof.
  apply reachable_run. exists pilotTrace. vm_compute. reflexivity.
Qed.

Lemma decision_on_record_witness :
  hasDecision pilotContext = Return true
  /\ exists m,
       lastUserMessage (messages pilotContext) = Some m
       /\ role m = user
       /\ extractPersonFromDecision (content m)
          = Return (Some (extractedPerson pilotContext)).
Proof.
  exact (decision_on_record
           (mkSnapshot Manipulation_SpeakingWithBuffer_Condition3
              pilotContext)
           pilot_reachable eq_refl).
Defined.

(** ** The pause after a speech *)

(** X7: Over any run of the session, the long pause of 15000 ms goes with a
    speech exactly when the speech is that of Loop.Speaking and no voice
    call of Loop.Speaking has succeeded before; the speeches of the
    manipulation and of End always have the pause of 1000 ms. *)
Theorem long_pause_until_spoken trace s :
  run initial trace = Some s ->
  (speechDelay s = Some 15000%N
   <-> value s = Loop_Speaking /\ hasSpoken initial trace = false)
  /\ (afterDecision (value s) = true ->
      speechDelay s = Some 1000%N \/ speechDelay s = None).
Proof.
  intros H.
  assert (Hr : reachable s) by (apply reachable_run; eauto).
  destruct (reachable_shape s Hr) as [earlier [m [E _]]].
  pose proof (run_isFirstMessage _ _ _ H) as F.
  cbn [initial context initialContext isFirstMessage] in F.
  rewrite andb_true_l in F.
  split.
  - unfold speechDelay, invoke.
    destruct (value s) eqn:V; cbn [fhSayDelay];
      try (split; [discriminate | intros [? _]; discriminate]).
    rewrite E, rev_app_distr. cbn [rev app]. rewrite F.
    destruct (hasSpoken initial trace); cbn [negb fhSayDelay]; split;
      intros; auto; try discriminate.
    destruct H0. discriminate.
  - unfold speechDelay, invoke.
    destruct (value s); intros A; try discriminate A; auto.
Qed.

Lemma long_pause_until_spoken_witness :
  speechDelay (mkSnapshot Loop_Speaking initialContext) = Some 15000%N
  <-> value (mkSnapshot Loop_Speaking initialContext) = Loop_Speaking
      /\ hasSpoken initial
           [mkInput 0 0 (done []); mkInput 0 0 error; mkInput 0 0 error;
            mkInput 0 0 error] = false.
Proof.
  exact (proj1 (long_pause_until_spoken
    [mkInput 0 0 (done []); mkInput 0 0 error; mkInput 0 0 error;
     mkInput 0 0 error]
    (mkSnapshot Loop_Speaking initialContext) eq_refl)).
Defined.

(** ** Whole sessions *)

(** X8: A session in which the set-up and the greeting succeed, the first
    utterance holds a decision and the answer to the manipulation question
    is affirmative ends in Done, whatever is drawn and whether or not the
    question is spoken: the transcript is the two seed messages, the
    utterance and the closing line, and extractedPerson is the person the
    extractor found. *)
Theorem decision_then_yes_ends_session
    (rnd : nat -> Q) (o1 o2 o3 o7 : str) (asked : ActorEvent)
    (utterance person answer : str) :
  extractPersonFromDecision utterance = Return (Some person) ->
  affirmative answer = true ->
  run initial
    [ mkInput (rnd 0) (rnd 1) (done o1); mkInput (rnd 2) (rnd 3) (done o2);
      mkInput (rnd 4) (rnd 5) (done o3);
      mkInput (rnd 6) (rnd 7) (done utterance);
      mkInput (rnd 8) (rnd 9) asked;
      mkInput (rnd 10) (rnd 11) (done answer);
      mkInput (rnd 12) (rnd 13) (done o7) ]
  = Some (mkSnapshot Done
            {| lastResult := answer;
               extractedPerson := person;
               messages := messages initialContext
                           ++ [mkMessage user utterance]
                           ++ [mkMessage assistant closingText];
               isFirstMessage := false |}).
Proof.
  intros X A. cbn [run].
  unfold step at 1. cbn [value context initial event].
  unfold step at 1. cbn [value context event].
  unfold step at 1. cbn [value context event].
  unfold step at 1. cbn [value context event].
  unfold Loop_Listening_onDone. rewrite X.
  assert (S5 : forall c,
             step (mkInput (rnd 8) (rnd 9) asked)
               (mkSnapshot
                  (DetermineTheManipulationState
                     (mkInput (rnd 6) (rnd 7) (done utterance))) c)
             = Some (mkSnapshot Manipulation_Listening c)).
  { intros c. unfold step, DetermineTheManipulationState.
    cbn [value context event random1 random2].
    destruct (isSpeakingWithBuffer (rnd 6)), (isSpeakingWithLaughter (rnd 7));
      destruct asked; reflexivity. }
  rewrite S5.
  unfold step at 1. cbn [value context event].
  unfold Manipulation_Listening_onDone. rewrite A.
  unfold step. cbn [value context event withMessages pushMessage
                      lastResult extractedPerson messages isFirstMessage].
  rewrite <- ?app_assoc. reflexivity.
Qed.

Lemma decision_then_yes_ends_session_witness :
  run initial
    [ mkInput 0 0 (done []); mkInput 0 0 (done []); mkInput 0 0 (done []);
      mkInput 0 0 (done (lit "I want the pilot to jump"));
      mkInput 0 0 error; mkInput 0 0 (done (lit "Yes!"));
      mkInput 0 0 (done []) ]
  = Some (mkSnapshot Done
            {| lastResult := lit "Yes!";
               extractedPerson := lit "pilot";
               messages := messages initialContext
                           ++ [mkMessage user (lit "I want the pilot to jump")]
                           ++ [mkMessage assistant closingText];
               isFirstMessage := false |}).
Proof.
  apply (decision_then_yes_ends_session (fun _ => 0%Q) [] [] [] [] error
           (lit "I want the pilot to jump") (lit "pilot") (lit "Yes!")).
  - vm_compute. reflexivity.
  - vm_compute. reflexivity.
Defined.

(** X9: The clarification loop has no bound: after any number of rounds in
    which the answer is neither affirmative nor negative, the machine is
    back in Manipulation.Listening with nothing changed but lastResult. *)
Theorem clarify_loop_unbounded (n : nat) (ctx : DMContext) (output : str)
    (heard spoken : Input) :
  event heard = done output ->
  affirmative output = false -> negative output = false ->
  run (mkSnapshot Manipulation_Listening ctx)
      (List.concat (repeat (clarifyRound heard spoken) (S n)))
  = Some (mkSnapshot Manipulation_Listening (withLastResult ctx output)).
Proof.
  intros He Ha Hn.
  assert (R : forall c,
             run (mkSnapshot Manipulation_Listening c)
                 (clarifyRound heard spoken)
             = Some (mkSnapshot Manipulation_Listening
                       (withLastResult c output))).
  { intros c. unfold clarifyRound. cbn [run].
    unfold step at 1. cbn [value context]. rewrite He.
    unfold Manipulation_Listening_onDone. rewrite Ha, Hn.
    unfold step. cbn [value context]. destruct (event spoken); reflexivity. }
  revert ctx. induction n as [|n IH]; intros ctx.
  - cbn [repeat List.concat]. rewrite app_nil_r. apply R.
  - change (repeat (clarifyRound heard spoken) (S (S n)))
      with (clarifyRound heard spoken
            :: repeat (clarifyRound heard spoken) (S n)).
    cbn [List.concat]. rewrite run_app, R, IH. reflexivity.
Qed.

Lemma clarify_loop_unbounded_witness :
  run (mkSnapshot Manipulation_Listening pilotContext)
      (List.concat
         (repeat (clarifyRound (mkInput 0 0 (done (lit "maybe")))
                    (mkInput 0 0 error)) 3))
  = Some (mkSnapshot Manipulation_Listening
            (withLastResult pilotContext (lit "maybe"))).
Proof.
  apply (clarify_loop_unbounded 2 pilotContext (lit "maybe")
           (mkInput 0 0 (done (lit "maybe"))) (mkInput 0 0 error)).
  - reflexivity.
  - vm_compute. reflexivity.
  - vm_compute. reflexivity.
Defined.

(** ** The guards that no transition uses *)

(** X10: After Manipulation.Listening has heard an answer, lastResult is that
    answer, the guard saidNo agrees with the inline negative test, and the
    guard saidYes accepts what the inline affirmative test accepts and,
    besides, the answer "positive". *)
Theorem declared_guards_after_answer (ctx : DMContext) (output : str) :
  let heard := context (Manipulation_Listening_onDone ctx output) in
  lastResult heard = output
  /\ saidNo heard = negative output
  /\ saidYes heard
     = affirmative output
       || streq (trim (toLowerCase output)) (lit "positive").
Proof.
  cbv zeta.
  assert (L : lastResult (context (Manipulation_Listening_onDone ctx output))
              = output).
  { unfold Manipulation_Listening_onDone.
    destruct (affirmative output); [|destruct (negative output)];
      reflexivity. }
  split; [exact L|]. unfold saidNo, saidYes. rewrite L. split.
  - reflexivity.
  - unfold affirmative.
    destruct (streq _ (lit "yes")), (streq _ (lit "yeah")),
      (streq _ (lit "positive")), (streq _ (lit "yep")),
      (includes _ (lit "yes")); reflexivity.
Qed.

(** ** The Ollama adapter and the machine *)

(** X11: Whatever the request to the chat endpoint comes to, the adapter
    never throws: for every failure (the fetch rejected, a status that is
    not OK, a body that cannot be read) it returns the fixed connection
    error text, and for a body that is read it returns message.content as
    it is, a text or not.  So the chatCompletion actor always resolves;
    and when it resolves with a text, Loop.ProcessingResponse appends that
    text as one assistant message and goes to Loop.Speaking. *)
Theorem completion_always_answers (response : ChatResponse) r1 r2
    (ctx : DMContext) :
  fetchChatCompletionValue response
  = Return (match response with
            | TextOrFailure (Answer assistantMessage) =>
                JsString assistantMessage
            | TextOrFailure _ => JsString connectionErrorText
            | ContentNotText => NotAString
            end)
  /\ forall reply,
       let text := match reply with
                   | Answer assistantMessage => assistantMessage
                   | _ => connectionErrorText
                   end in
       fetchChatCompletionValue (TextOrFailure reply) = Return (JsString text)
       /\ chatCompletion reply = done text
       /\ completionStep reply r1 r2
            (mkSnapshot Loop_ProcessingResponse ctx)
          = Some (mkSnapshot Loop_Speaking
                    (withMessages ctx
                       (messages ctx ++ [mkMessage assistant text]))).
Proof.
  split.
  - destruct response as [[| | |]|]; reflexivity.
  - intros reply. destruct reply; repeat split.
Qed.

(** ** Characters, lower case and trimming *)

Lemma lowerChar_idem c : lowerChar (lowerChar c) = lowerChar c.
Proof. destruct c as [[] [] [] [] [] [] [] []]; reflexivity. Qed.

Lemma lowerChar_space c : isWhiteSpace (lowerChar c) = isWhiteSpace c.
Proof. destruct c as [[] [] [] [] [] [] [] []]; reflexivity. Qed.

Lemma nonspace_isDot c : isWhiteSpace c = false -> isDot c = true.
Proof.
  destruct c as [[] [] [] [] [] [] [] []]; intros H;
    (reflexivity || discriminate H).
Qed.

Lemma toLowerCase_idem s : toLowerCase (toLowerCase s) = toLowerCase s.
Proof.
  unfold toLowerCase. rewrite map_map. apply map_ext, lowerChar_idem.
Qed.

Lemma trimStart_split s :
  exists a, s = a ++ trimStart s /\ forallb isWhiteSpace a = true.
Proof.
  induction s as [|c s [a [E F]]].
  - exists []. auto.
  - cbn [trimStart]. destruct (isWhiteSpace c) eqn:W.
    + exists (c :: a). cbn. rewrite W, F, <- E. auto.
    + exists []. auto.
Qed.

Lemma trimStart_head s c t :
  trimStart s = c :: t -> isWhiteSpace c = false.
Proof.
  induction s as [|a s IH]; cbn [trimStart]; [discriminate|].
  destruct (isWhiteSpace a) eqn:W; [exact IH|].
  intros [= <- _]. exact W.
Qed.

Lemma trimStart_keeps s c t :
  s = c :: t -> isWhiteSpace c = false -> trimStart s = s.
Proof. intros -> W. cbn. rewrite W. reflexivity. Qed.

Lemma trimStart_idem s : trimStart (trimStart s) = trimStart s.
Proof.
  destruct (trimStart s) as [|c t] eqn:E; [reflexivity|].
  apply (trimStart_keeps (c :: t) c t eq_refl (trimStart_head s c t E)).
Qed.

Lemma trimStart_spaces w s :
  forallb isWhiteSpace w = true -> trimStart (w ++ s) = trimStart s.
Proof.
  induction w as [|c w IH]; cbn; [reflexivity|].
  intros H. apply andb_true_iff in H. destruct H as [W H].
  rewrite W. apply IH, H.
Qed.

(** [trim] cuts white space off both ends and nothing else. *)
Lemma trim_split s :
  exists a b,
    s = a ++ trim s ++ b
    /\ forallb isWhiteSpace a = true /\ forallb isWhiteSpace b = true.
Proof.
  unfold trim, trimEnd.
  destruct (trimStart_split s) as [a [Ea Fa]].
  destruct (trimStart_split (rev (trimStart s))) as [b [Eb Fb]].
  exists a, (rev b). repeat split; auto.
  - rewrite Ea at 1. f_equal.
    rewrite <- (rev_involutive (trimStart s)) at 1.
    rewrite Eb at 1. rewrite rev_app_distr. reflexivity.
  - rewrite forallb_forall in *. intros x Hx. apply Fb, in_rev, Hx.
Qed.

Lemma trim_trimStart s : trimStart (trim s) = trim s.
Proof.
  unfold trim, trimEnd.
  destruct (trimStart_split (rev (trimStart s))) as [b [Eb Fb]].
  set (Z := trimStart (rev (trimStart s))) in *.
  destruct (rev Z) as [|c t] eqn:R; [reflexivity|].
  apply (trimStart_keeps (c :: t) c t eq_refl).
  assert (Y : trimStart s = (c :: t) ++ rev b).
  { rewrite <- (rev_involutive (trimStart s)), Eb, rev_app_distr, R.
    reflexivity. }
  apply (trimStart_head s c (t ++ rev b)). exact Y.
Qed.

Lemma trim_idem s : trim (trim s) = trim s.
Proof.
  unfold trim at 1. rewrite trim_trimStart.
  unfold trim, trimEnd. rewrite rev_involutive, trimStart_idem. reflexivity.
Qed.

(** White space around a text does not change what [trim] returns. *)
Lemma trim_padding w1 w2 s :
  forallb isWhiteSpace w1 = true -> forallb isWhiteSpace w2 = true ->
  trim (w1 ++ s ++ w2) = trim s.
Proof.
  intros H1 H2. unfold trim. rewrite (trimStart_spaces w1 _ H1).
  destruct (trimStart s) as [|c t] eqn:E.
  - assert (A : forallb isWhiteSpace s = true).
    { destruct (trimStart_split s) as [a [Ea Fa]]. rewrite E in Ea.
      rewrite app_nil_r in Ea. subst a. exact Fa. }
    rewrite <- (app_nil_r (s ++ w2)), trimStart_spaces; [reflexivity|].
    rewrite forallb_app, A, H2. reflexivity.
  - assert (T : trimStart (s ++ w2) = (c :: t) ++ w2).
    { destruct (trimStart_split s) as [a [Ea Fa]]. rewrite E in Ea.
      rewrite Ea at 1. rewrite <- app_assoc, (trimStart_spaces a _ Fa).
      apply (trimStart_keeps _ c (t ++ w2) eq_refl).
      exact (trimStart_head s c t E). }
    rewrite T. unfold trimEnd. rewrite rev_app_distr.
    rewrite trimStart_spaces; [reflexivity|].
    rewrite forallb_forall in *. intros x Hx. apply H2, in_rev, Hx.
Qed.

Lemma toLowerCase_trimStart s :
  toLowerCase (trimStart s) = trimStart (toLowerCase s).
Proof.
  induction s as [|c s IH]; [reflexivity|].
  cbn [trimStart toLowerCase map]. rewrite lowerChar_space.
  destruct (isWhiteSpace c); [exact IH | reflexivity].
Qed.

Lemma toLowerCase_trim s : toLowerCase (trim s) = trim (toLowerCase s).
Proof.
  unfold trim, trimEnd, toLowerCase.
  rewrite map_rev. fold (toLowerCase (trimStart (rev (trimStart s)))).
  rewrite toLowerCase_trimStart. unfold toLowerCase at 1.
  rewrite map_rev. fold (toLowerCase (trimStart s)).
  rewrite toLowerCase_trimStart. reflexivity.
Qed.

(** ** What the extractor returns *)

Lemma partOf_trans x y z : partOf x y -> partOf y z -> partOf x z.
Proof.
  intros [a [b ->]] [c [d ->]]. exists (c ++ a), (b ++ d).
  rewrite <- !app_assoc. reflexivity.
Qed.

Lemma partOf_Forall (P : ascii -> Prop) x s :
  partOf x s -> Forall P s -> Forall P x.
Proof.
  intros [a [b ->]] F. apply Forall_app in F. destruct F as [_ F].
  apply Forall_app in F. apply F.
Qed.

Lemma trim_partOf s : partOf (trim s) s.
Proof. destruct (trim_split s) as [a [b [E _]]]. exists a, b. exact E. Qed.

Lemma subject_partOf d : partOf (subject d) (readingText d).
Proof.
  exists (before d ++ lit "i" ++ gap1 d ++ lit "want" ++ gap2 d
          ++ articleText (article d)),
    (tailText (gap3 d) (gap4 d) (after d)).
  unfold readingText, fromStart, fromGap2, fromArticle, fromSubject.
  rewrite <- !app_assoc. reflexivity.
Qed.

Lemma extract_by_lower u v :
  trim (toLowerCase u) = trim (toLowerCase v) ->
  extractPersonFromDecision u = extractPersonFromDecision v.
Proof. unfold extractPersonFromDecision. intros ->. reflexivity. Qed.

(** X12: The person the extractor returns is a piece of the lower-cased
    utterance: it is in lower case, has no white space at either end and
    no line terminator inside. *)
Theorem extracted_person_is_clean (utterance person : str) :
  extractPersonFromDecision utterance = Return (Some person) ->
  partOf person (toLowerCase utterance)
  /\ toLowerCase person = person
  /\ trim person = person
  /\ forallb isDot person = true.
Proof.
  intros H. destruct (extract_cases utterance) as [[d [[W [T _]] X]] | X];
    rewrite X in H; [|discriminate]. injection H as <-.
  assert (P1 : partOf (trim (subject d)) (subject d)) by apply trim_partOf.
  assert (P : partOf (trim (subject d)) (toLowerCase utterance)).
  { apply (partOf_trans _ _ _ P1).
    apply (partOf_trans _ (readingText d)); [apply subject_partOf|].
    rewrite T. apply trim_partOf. }
  split; [exact P|]. split; [|split].
  - assert (F : Forall (fun c => lowerChar c = c) (toLowerCase utterance)).
    { unfold toLowerCase. apply Forall_map, Forall_forall.
      intros c _. apply lowerChar_idem. }
    pose proof (partOf_Forall _ _ _ P F) as F'.
    unfold toLowerCase. rewrite <- (map_id (trim (subject d))) at 2.
    apply map_ext_in. rewrite Forall_forall in F'. exact F'.
  - apply trim_idem.
  - unfold wellFormed, okFromStart, okFromGap2, okFromArticle,
      okFromSubject in W. rewrite !andb_true_iff in W.
    destruct W as [_ [_ [_ [_ [[[HX _] _] _]]]]].
    apply plusOf_forallb in HX. rewrite forallb_forall in *.
    destruct P1 as [a [b E]]. intros c Hc. apply HX. rewrite E.
    apply in_or_app. right. apply in_or_app. left. exact Hc.
Qed.

Lemma extracted_person_is_clean_witness :
  partOf (lit "teacher") (toLowerCase (lit "I want the Teacher to jump"))
  /\ toLowerCase (lit "teacher") = lit "teacher"
  /\ trim (lit "teacher") = lit "teacher"
  /\ forallb isDot (lit "teacher") = true.
Proof.
  apply (extracted_person_is_clean (lit "I want the Teacher to jump")).
  vm_compute. reflexivity.
Defined.

(** X13: An utterance is a decision only if, in lower case, it has the words
    "want" and "jump" in it. *)
Theorem decision_needs_its_words (utterance person : str) :
  extractPersonFromDecision utterance = Return (Some person) ->
  includes (toLowerCase utterance) (lit "want") = true
  /\ includes (toLowerCase utterance) (lit "jump") = true.
Proof.
  intros H. destruct (extract_cases utterance) as [[d [[_ [T _]] X]] | X];
    rewrite X in H; [|discriminate]. clear H X.
  pose proof (trim_partOf (toLowerCase utterance)) as P. rewrite <- T in P.
  split; apply includes_spec.
  - apply (fun Q => partOf_trans _ _ _ Q P).
    exists (before d ++ lit "i" ++ gap1 d),
      (fromGap2 d).
    unfold readingText, fromStart. rewrite <- !app_assoc. reflexivity.
  - apply (fun Q => partOf_trans _ _ _ Q P).
    exists (before d ++ lit "i" ++ gap1 d ++ lit "want" ++ gap2 d
            ++ articleText (article d) ++ subject d ++ gap3 d ++ lit "to"
            ++ gap4 d),
      (after d).
    unfold readingText, fromStart, fromGap2, fromArticle, fromSubject,
      tailText. rewrite <- !app_assoc. reflexivity.
Qed.

Lemma decision_needs_its_words_witness :
  includes (toLowerCase (lit "I want the Teacher to jump")) (lit "want")
  = true
  /\ includes (toLowerCase (lit "I want the Teacher to jump")) (lit "jump")
     = true.
Proof.
  apply (decision_needs_its_words (lit "I want the Teacher to jump")
           (lit "teacher")).
  vm_compute. reflexivity.
Defined.

(** X14: Letter case and white space around the utterance make no difference
    to what the extractor returns. *)
Theorem extract_ignores_case_and_padding (utterance w1 w2 : str) :
  forallb isWhiteSpace w1 = true -> forallb isWhiteSpace w2 = true ->
  extractPersonFromDecision (w1 ++ utterance ++ w2)
  = extractPersonFromDecision utterance
  /\ extractPersonFromDecision (toLowerCase utterance)
     = extractPersonFromDecision utterance
  /\ extractPersonFromDecision (trim utterance)
     = extractPersonFromDecision utterance.
Proof.
  intros H1 H2. repeat split; apply extract_by_lower.
  - unfold toLowerCase. rewrite !map_app. apply trim_padding.
    + rewrite forallb_forall in *. intros c Hc.
      apply in_map_iff in Hc. destruct Hc as [c' [<- Hc']].
      rewrite lowerChar_space. apply H1, Hc'.
    + rewrite forallb_forall in *. intros c Hc.
      apply in_map_iff in Hc. destruct Hc as [c' [<- Hc']].
      rewrite lowerChar_space. apply H2, Hc'.
  - rewrite toLowerCase_idem. reflexivity.
  - rewrite toLowerCase_trim. apply trim_idem.
Qed.

Lemma extract_ignores_case_and_padding_witness :
  extractPersonFromDecision
    (lit "  " ++ lit "I want the Teacher to jump" ++ lit " ")
  = extractPersonFromDecision (lit "I want the Teacher to jump")
  /\ extractPersonFromDecision (toLowerCase (lit "I want the Teacher to jump"))
     = extractPersonFromDecision (lit "I want the Teacher to jump")
  /\ extractPersonFromDecision (trim (lit "I want the Teacher to jump"))
     = extractPersonFromDecision (lit "I want the Teacher to jump").
Proof.
  apply (extract_ignores_case_and_padding
           (lit "I want the Teacher to jump") (lit "  ") (lit " "));
    reflexivity.
Defined.

(** ** The reading tried first is one reading *)

Lemma chosenReading_unique (s : str) (d d' : Reading) :
  chosenReading s d -> chosenReading s d' -> d = d'.
Proof.
  intros [W [T F]] [W' [T' F']].
  pose proof (F d' W' T') as P. pose proof (F' d W T) as P'.
  destruct d as [pre g1 g2 art X g3 g4 post].
  destruct d' as [pre' g1' g2' art' X' g3' g4' post'].
  unfold triedFirst, gap2First in P, P'.
  cbn [before gap2 article subject] in P, P'.
  unfold wellFormed, okFromStart, okFromGap2, okFromArticle, okFromSubject
    in W, W'.
  cbn [before gap1 gap2 article subject gap3 gap4 after] in W, W'.
  rewrite !andb_true_iff in W, W'.
  destruct W as [_ [H1 [H2 [Ha [[[HX H3] H4] _]]]]].
  destruct W' as [_ [H1' [H2' [Ha' [[[HX' H3'] H4'] _]]]]].
  unfold readingText, fromStart, fromGap2, fromArticle, fromSubject in T, T'.
  cbn [before gap1 gap2 article subject gap3 gap4 after] in T, T'.
  rewrite <- T' in T. clear T' F F'.
  assert (Lpre : List.length pre = List.length pre') by lia.
  destruct (app_same_length _ _ _ _ _ T Lpre) as [<- T1].
  apply app_inv_head in T1.
  destruct (run_unique isWhiteSpace g1 g1' "w"%char "w"%char _ _
              (plusOf_forallb _ _ H1) (plusOf_forallb _ _ H1')
              eq_refl eq_refl T1) as [<- [_ T2]].
  apply (app_inv_head (lit "ant")) in T2.
  assert (G : List.length g2 = List.length g2'
              /\ articleFirst art X art' X' /\ articleFirst art' X' art X).
  { destruct P as [P|[_ [P|[E P]]]]; try lia;
      destruct P' as [P'|[_ [P'|[E' P']]]]; try lia. auto. }
  destruct G as [L2 [A A']].
  destruct (app_same_length _ _ _ _ _ T2 L2) as [<- T3].
  assert (S : art = art' /\ X ++ tailText g3 g4 post
                            = X' ++ tailText g3' g4' post'
              /\ List.length X = List.length X').
  { destruct art as [g|], art' as [g'|]; cbn [articleFirst] in A, A';
      try contradiction; cbn [articleText] in T3.
    - assert (Lg : List.length g = List.length g') by lia.
      rewrite <- !app_assoc in T3. apply app_inv_head in T3.
      destruct (app_same_length _ _ _ _ _ T3 Lg) as [<- T4].
      repeat split; auto. lia.
    - cbn [app] in T3. repeat split; auto. lia. }
  destruct S as [<- [T4 LX]].
  destruct (app_same_length _ _ _ _ _ T4 LX) as [<- T5].
  destruct (tailText_unique _ _ _ _ _ _ T5 H3 H4 H3' H4') as [<- [<- <-]].
  reflexivity.
Qed.

(** X15: What the extractor returns is settled by the text alone: when it
    returns a person, the lower-cased, trimmed utterance has exactly one
    reading that the matcher tries before every other, and the person is
    the trimmed subject of that reading; when it returns null, the text has
    no reading at all; and it never throws. *)
Theorem extractor_reads_one_way (utterance : str) :
  let lower := trim (toLowerCase utterance) in
  match extractPersonFromDecision utterance with
  | Return (Some person) =>
      exists d,
        chosenReading lower d /\ person = trim (subject d)
        /\ forall d', chosenReading lower d' -> d' = d
  | Return None => forall d, wellFormed d = true -> readingText d <> lower
  | Throw => False
  end.
Proof.
  cbv zeta. unfold extractPersonFromDecision.
  pose proof (exec_wantToJump (trim (toLowerCase utterance))) as H.
  destruct (exec wantToJump (trim (toLowerCase utterance))) as [r|].
  - destruct H as [d [Hd Hc]]. rewrite Hc. exists d.
    split; [exact Hd|]. split; [reflexivity|].
    intros d' Hd'. apply (chosenReading_unique _ _ _ Hd' Hd).
  - exact H.
Qed.

(** ** One-word subjects *)

Lemma longer_prefix (A : Type) : forall (w w0 t0 : list A) c t,
  w0 ++ t0 = w ++ c :: t -> List.length w < List.length w0 ->
  exists w1, w0 = w ++ c :: w1.
Proof.
  induction w as [|a w IH]; intros [|a0 w0] t0 c t E L; cbn in *;
    try lia.
  - injection E as -> _. exists w0. reflexivity.
  - injection E as -> E.
    destruct (IH w0 t0 c t E ltac:(lia)) as [w1 ->]. exists w1. reflexivity.
Qed.

(** A greedy run that reaches a unit outside the class and succeeds there
    is the answer. *)
Lemma greedy_max p x k w c t r :
  rest x = w ++ c :: t -> plusOf p w = true -> p c = false ->
  k (advance w (c :: t) x) = Some r ->
  mPlusGreedy p x k = Some r.
Proof.
  intros E Hw Hc Hk.
  destruct (mPlusGreedy p x k) as [r'|] eqn:G.
  - destruct (mPlusGreedy_some _ _ _ _ G) as [w0 [t0 [E0 [Hw0 [Hk0 Hmax]]]]].
    destruct (Nat.lt_trichotomy (List.length w0) (List.length w))
      as [L|[L|L]].
    + rewrite (Hmax w (c :: t) E (plusOf_forallb _ _ Hw) L) in Hk.
      discriminate.
    + rewrite E in E0. symmetry in E0.
      destruct (app_same_length _ _ _ _ _ E0 L) as [-> ->]. congruence.
    + rewrite E in E0. symmetry in E0.
      destruct (longer_prefix _ w w0 t0 c t E0 L) as [w1 ->].
      apply plusOf_forallb in Hw0. rewrite forallb_app in Hw0.
      apply andb_true_iff in Hw0. destruct Hw0 as [_ Hw0]. cbn in Hw0.
      rewrite Hc in Hw0. discriminate.
  - rewrite (mPlusGreedy_none _ _ _ G w (c :: t) E Hw) in Hk. discriminate.
Qed.

(** A lazy run succeeds at the first length at which the continuation
    does. *)
Lemma lazy_min p x k w t r :
  rest x = w ++ t -> plusOf p w = true ->
  k (advance w t x) = Some r ->
  (forall w' t', rest x = w' ++ t' -> w' <> [] ->
                 List.length w' < List.length w ->
                 k (advance w' t' x) = None) ->
  mPlusLazy p x k = Some r.
Proof.
  intros E Hw Hk Hnone.
  destruct (mPlusLazy p x k) as [r'|] eqn:G.
  - destruct (mPlusLazy_some _ _ _ _ G) as [w0 [t0 [E0 [Hw0 [Hk0 Hmin]]]]].
    destruct (Nat.lt_trichotomy (List.length w0) (List.length w))
      as [L|[L|L]].
    + rewrite (Hnone w0 t0 E0 (plusOf_nonempty _ _ Hw0) L) in Hk0.
      discriminate.
    + rewrite E in E0. symmetry in E0.
      destruct (app_same_length _ _ _ _ _ E0 L) as [-> ->]. congruence.
    + rewrite (Hmin w t E (plusOf_nonempty _ _ Hw) L) in Hk. discriminate.
  - rewrite (mPlusLazy_none _ _ _ G w t E Hw) in Hk. discriminate.
Qed.

Lemma tailM_needs_space x k c t :
  rest x = c :: t -> isWhiteSpace c = false -> tailM x k = None.
Proof.
  intros E W. unfold tailM, mSeq, mPlusGreedy, mChar. rewrite E, W.
  reflexivity.
Qed.

Lemma search_first m sn s r :
  m (mkState sn s None) (fun y => Some y) = Some r -> search m sn s = Some r.
Proof. intros H. destruct s; cbn [search]; rewrite H; reflexivity. Qed.

Lemma noSpace_trim x : noSpace x = true -> trim x = x.
Proof.
  unfold noSpace. intros H. rewrite forallb_forall in H.
  assert (K : forall y, (forall c, In c y -> In c x) -> trimStart y = y).
  { intros [|c y] Hy; [reflexivity|].
    apply (trimStart_keeps _ c y eq_refl).
    apply negb_true_iff, H, Hy. left. reflexivity. }
  unfold trim, trimEnd. rewrite (K x) by auto.
  rewrite (K (rev x)); [apply rev_involutive|].
  intros c Hc. apply in_rev. exact Hc.
Qed.

Lemma noSpace_In x c : noSpace x = true -> In c x -> isWhiteSpace c = false.
Proof.
  unfold noSpace. rewrite forallb_forall. intros H I.
  apply negb_true_iff, H, I.
Qed.

Lemma noSpace_subjectText x : x <> [] -> noSpace x = true ->
  subjectText x = true.
Proof.
  intros N H. apply plusOf_intro; [exact N|].
  apply forallb_forall. intros c I.
  apply nonspace_isDot, (noSpace_In x c H I).
Qed.

Lemma subjectStage_one_word x X :
  rest x = X ++ lit " to jump" -> X <> [] -> noSpace X = true ->
  exists r, subjectStage x = Some r /\ cap r = Some X.
Proof.
  intros E N H. unfold subjectStage, mGroup.
  assert (F : firstn (List.length (seen (advance X (lit " to jump") x))
                      - List.length (seen x)) (rest x) = X).
  { unfold advance. cbn [seen]. rewrite E, length_app, length_rev.
    replace (List.length X + List.length (seen x) - List.length (seen x))
      with (List.length X + 0) by lia.
    rewrite firstn_app_2. cbn. apply app_nil_r. }
  eexists. split.
  - apply (lazy_min isDot x _ X (lit " to jump") _ E
             (noSpace_subjectText X N H)).
    + cbn beta. rewrite F.
      rewrite tailM_eq with (g3 := lit " ") (g4 := lit " ") (post := [])
        by reflexivity.
      cbn [isWordAt]. reflexivity.
    + intros w' t' E' N' L. cbn beta. rewrite E in E'.
      destruct t' as [|c t'].
      * rewrite app_nil_r in E'. subst w'. rewrite length_app in L. lia.
      * destruct (longer_prefix _ w' X (lit " to jump") c t' E' L)
          as [w1 EX].
        apply tailM_needs_space with (c := c) (t := t'); [reflexivity|].
        apply (noSpace_In X c H). rewrite EX. apply in_or_app. right.
        left. reflexivity.
  - reflexivity.
Qed.

Lemma articleStage_one_word x X :
  rest x = lit "the " ++ X ++ lit " to jump" -> X <> [] ->
  noSpace X = true ->
  exists r, articleStage x = Some r /\ cap r = Some X.
Proof.
  intros E N H. destruct X as [|c X']; [congruence|].
  destruct (subjectStage_one_word
              (advance (lit " ") ((c :: X') ++ lit " to jump")
                 (advance (lit "the") (lit " " ++ (c :: X') ++ lit " to jump")
                    x))
              (c :: X') eq_refl N H) as [r [S C]].
  exists r. split; [|exact C].
  rewrite articleStage_unfold.
  rewrite (mLit_eq (lit "the") (lit " " ++ (c :: X') ++ lit " to jump") x _ E).
  rewrite (greedy_max isWhiteSpace
             (advance (lit "the") (lit " " ++ (c :: X') ++ lit " to jump") x)
             subjectStage (lit " ") c
             (X' ++ lit " to jump") r eq_refl eq_refl
             (noSpace_In (c :: X') c H (or_introl eq_refl)) S).
  reflexivity.
Qed.

Lemma wantToJump_one_word X :
  X <> [] -> noSpace X = true ->
  exists r,
    exec wantToJump (lit "i want the " ++ X ++ lit " to jump") = Some r
    /\ cap r = Some X.
Proof.
  intros N H.
  set (s := lit "i want the " ++ X ++ lit " to jump").
  set (x0 := mkState [] s None).
  set (x1 := advance (lit "i" ++ lit " " ++ lit "want")
               (lit " the " ++ X ++ lit " to jump") x0).
  destruct (articleStage_one_word
              (advance (lit " ") (lit "the " ++ X ++ lit " to jump") x1)
              X eq_refl N H) as [r [A C]].
  exists r. split; [|exact C].
  apply search_first. fold x0.
  rewrite (head_eq x0 (lit " ") (lit " the " ++ X ++ lit " to jump")
             eq_refl eq_refl).
  cbn [seen x0 isWordAt]. unfold gap2Stage. fold x1.
  apply (greedy_max isWhiteSpace x1 articleStage (lit " ") "t"%char
           (lit "he " ++ X ++ lit " to jump") r eq_refl eq_refl eq_refl A).
Qed.

Lemma one_word_sentence_lower X :
  trim (toLowerCase (lit "I want the " ++ X ++ lit " to jump"))
  = lit "i want the " ++ toLowerCase X ++ lit " to jump".
Proof.
  unfold toLowerCase. rewrite !map_app.
  change (map lowerChar (lit "I want the ")) with (lit "i want the ").
  change (map lowerChar (lit " to jump")) with (lit " to jump").
  generalize (map lowerChar X). intros Y.
  assert (T1 : trimStart (lit "i want the " ++ Y ++ lit " to jump")
               = lit "i want the " ++ Y ++ lit " to jump").
  { eapply trimStart_keeps; reflexivity. }
  assert (T2 : trimStart (rev (lit "i want the " ++ Y ++ lit " to jump"))
               = rev (lit "i want the " ++ Y ++ lit " to jump")).
  { rewrite !rev_app_distr. eapply trimStart_keeps; reflexivity. }
  unfold trim, trimEnd. rewrite T1, T2. apply rev_involutive.
Qed.

(** X16: A sentence "I want the X to jump" whose X is one word (not empty, no
    white space in it) is a decision, and the person extracted is X in
    lower case, whatever X is. *)
Theorem one_word_subject_is_extracted (X : str) :
  X <> [] -> noSpace X = true ->
  extractPersonFromDecision (lit "I want the " ++ X ++ lit " to jump")
  = Return (Some (toLowerCase X)).
Proof.
  intros N H. unfold extractPersonFromDecision.
  rewrite one_word_sentence_lower.
  assert (N' : toLowerCase X <> []).
  { destruct X; [congruence | discriminate]. }
  assert (H' : noSpace (toLowerCase X) = true).
  { unfold noSpace, toLowerCase in *. rewrite forallb_forall in *.
    intros c I. apply in_map_iff in I. destruct I as [c' [<- I]].
    rewrite lowerChar_space. apply H, I. }
  destruct (wantToJump_one_word (toLowerCase X) N' H') as [r [E C]].
  rewrite E, C, (noSpace_trim _ H'). reflexivity.
Qed.

Lemma one_word_subject_is_extracted_witness :
  extractPersonFromDecision (lit "I want the " ++ lit "Dr." ++ lit " to jump")
  = Return (Some (toLowerCase (lit "Dr."))).
Proof.
  apply (one_word_subject_is_extracted (lit "Dr.")).
  - discriminate.
  - reflexivity.
Defined.

(** ** The context as a record of the run *)

Lemma step_lastResult i s s' :
  step i s = Some s' ->
  lastResult (context s')
  = match heard i s with
    | Some u => u
    | None => lastResult (context s)
    end.
Proof.
  destruct s as [v c]. unfold step, heard. cbn [value context].
  destruct v, (event i) as [o|]; intros H; try discriminate;
    try (injection H as <-; reflexivity).
  - unfold Loop_Listening_onDone in H.
    destruct (extractPersonFromDecision o) as [[p|]|]; try discriminate;
      injection H as <-; reflexivity.
  - injection H as <-. unfold Manipulation_Listening_onDone.
    destruct (affirmative o); [|destruct (negative o)]; reflexivity.
Qed.

(** X17: After any run of the session, lastResult is the last utterance that
    Loop.Listening or Manipulation.Listening heard, and the empty text when
    none was heard; no other transition writes it. *)
Theorem lastResult_is_last_heard trace s :
  run initial trace = Some s ->
  lastResult (context s) = lastHeard [] initial trace.
Proof.
  change [] with (lastResult (context initial)) at 1.
  generalize initial. induction trace as [|i trace IH]; intros s0; cbn.
  - intros [= <-]. reflexivity.
  - destruct (step i s0) as [s1|] eqn:E; [|discriminate].
    intros H. rewrite (IH s1 H), (step_lastResult i s0 s1 E). reflexivity.
Qed.

Lemma lastResult_is_last_heard_witness :
  lastResult (context (mkSnapshot Loop_ProcessingResponse helloContext))
  = lastHeard [] initial helloTrace
  /\ lastHeard [] initial helloTrace = lit "hello".
Proof.
  split.
  - apply lastResult_is_last_heard. vm_compute. reflexivity.
  - vm_compute. reflexivity.
Defined.

Lemma step_recorded i s s' :
  step i s = Some s' ->
  messages (context s') = messages (context s) ++ recorded i s.
Proof.
  destruct s as [v c]. unfold step, recorded. cbn [value context].
  destruct v, (event i) as [o|]; intros H; try discriminate;
    try (injection H as <-; cbn; rewrite ?app_nil_r; reflexivity).
  - unfold Loop_Listening_onDone in H.
    destruct (extractPersonFromDecision o) as [[p|]|]; try discriminate;
      injection H as <-; reflexivity.
  - injection H as <-. unfold Manipulation_Listening_onDone.
    destruct (affirmative o); [|destruct (negative o)]; cbn;
      rewrite ?app_nil_r; reflexivity.
Qed.

(** X18: After any run of the session the transcript is the two seed messages
    followed, in order, by exactly this: each utterance heard by
    Loop.Listening, each text the completion call resolved with (the
    fallback line when it rejected), the user message "I am not sure." for
    each negative answer, and the closing line when the speech of End
    succeeded. *)
Theorem transcript_is_record_of_run trace s :
  run initial trace = Some s ->
  messages (context s)
  = messages initialContext ++ transcriptOf initial trace.
Proof.
  change (messages initialContext) with (messages (context initial)).
  generalize initial. induction trace as [|i trace IH]; intros s0; cbn.
  - intros [= <-]. rewrite app_nil_r. reflexivity.
  - destruct (step i s0) as [s1|] eqn:E; [|discriminate].
    intros H. rewrite (IH s1 H), (step_recorded i s0 s1 E), app_assoc.
    reflexivity.
Qed.

Lemma transcript_is_record_of_run_witness :
  messages (context (mkSnapshot Loop_Speaking answeredContext))
  = messages initialContext
    ++ transcriptOf initial (helloTrace ++ [hears "Why?"])
  /\ transcriptOf initial (helloTrace ++ [hears "Why?"])
     = [mkMessage user (lit "hello"); mkMessage assistant (lit "Why?")].
Proof.
  split.
  - apply transcript_is_record_of_run. vm_compute. reflexivity.
  - vm_compute. reflexivity.
Defined.

(** ** The way out *)

Lemma hears_decision :
  extractPersonFromDecision (lit "i want x to jump")
  = Return (Some (lit "x")).
Proof. vm_compute. reflexivity. Qed.

Lemma hears_yes : affirmative (lit "yes") = true.
Proof. vm_compute. reflexivity. Qed.

Lemma run_cons s i trace :
  run s (i :: trace)
  = match step i s with
    | Some s' => run s' trace
    | None => None
    end.
Proof. reflexivity. Qed.

Ltac one_step :=
  rewrite run_cons; unfold step at 1; cbn [value context hears event].

Lemma wayOut_Manipulation_Listening ctx :
  exists s', run (mkSnapshot Manipulation_Listening ctx)
               [hears "yes"; hears ""] = Some s'
             /\ value s' = Done.
Proof.
  one_step. unfold Manipulation_Listening_onDone. rewrite hears_yes.
  one_step. eexists. split; reflexivity.
Qed.

Lemma wayOut_Loop_Listening ctx :
  exists s', run (mkSnapshot Loop_Listening ctx)
               [hears "i want x to jump"; hears ""; hears "yes"; hears ""]
             = Some s'
             /\ value s' = Done.
Proof.
  one_step. unfold Loop_Listening_onDone. rewrite hears_decision.
  change (DetermineTheManipulationState
            (mkInput 0 0 (done (lit "i want x to jump"))))
    with Manipulation_SpeakingWithBuffer_Condition3.
  one_step. apply wayOut_Manipulation_Listening.
Qed.

(** X19: From every snapshot the session can be brought to an end: some
    sequence of actor results (a decision heard, then "yes") leads to
    Done. *)
Theorem session_can_always_end (s : Snapshot) :
  exists s', run s (wayOut (value s)) = Some s' /\ value s' = Done.
Proof.
  destruct s as [v c]. cbn [value].
  destruct v; cbn [wayOut].
  - do 3 one_step. apply wayOut_Loop_Listening.
  - do 2 one_step. apply wayOut_Loop_Listening.
  - one_step. apply wayOut_Loop_Listening.
  - apply wayOut_Loop_Listening.
  - do 2 one_step. apply wayOut_Loop_Listening.
  - one_step. apply wayOut_Manipulation_Listening.
  - one_step. apply wayOut_Manipulation_Listening.
  - one_step. apply wayOut_Manipulation_Listening.
  - apply wayOut_Manipulation_Listening.
  - one_step. apply wayOut_Manipulation_Listening.
  - one_step. eexists. split; reflexivity.
  - eexists. split; reflexivity.
Qed.

(** ** What the Completion Service and the log are given *)




Lemma reachable_decision s :
  reachable s -> afterDecision (value s) = true ->
  exists m,
    lastUserMessage (messages (context s)) = Some m
    /\ extractPersonFromDecision (content m)
       = Return (Some (extractedPerson (context s))).
Proof.
  induction 1 as [|s i s' _ IH Hs]; intros A.
  - discriminate A.
  - exact (step_decision_on_record i s s' Hs IH A).
Qed.

(** X21: In the manipulation, in End and in Done, what the subscriber logs as
    the last user message is the utterance of the decision itself, never
    "none" for want of one. *)
Theorem log_shows_the_decision s :
  reachable s -> afterDecision (value s) = true ->
  exists m,
    lastUserMessage (messages (context s)) = Some m
    /\ loggedLastUserMessage (context s) = content m
    /\ extractPersonFromDecision (loggedLastUserMessage (context s))
       = Return (Some (extractedPerson (context s))).
Proof.
  intros Hr A. destruct (reachable_decision s Hr A) as [m [L X]].
  exists m. split; [exact L|].
  assert (E : loggedLastUserMessage (context s) = content m).
  { unfold loggedLastUserMessage. rewrite L.
    destruct (content m) eqn:C; [|reflexivity].
    exfalso. vm_compute in X. discriminate X. }
  split; [exact E | rewrite E; exact X].
Qed.

Lemma log_shows_the_decision_witness :
  exists m,
    lastUserMessage (messages pilotContext) = Some m
    /\ loggedLastUserMessage pilotContext = content m
    /\ extractPersonFromDecision (loggedLastUserMessage pilotContext)
       = Return (Some (extractedPerson pilotContext)).
Proof.
  exact (log_shows_the_decision
           (mkSnapshot Manipulation_SpeakingWithBuffer_Condition3
              pilotContext)
           pilot_reachable eq_refl).
Defined.
